(** * hsnips: the snippet compiler of [src/parser.ts]

    A shallow embedding of the parser of the hsnips extension: the header
    grammar ([parseSnippetHeader]), the body compiler ([parseSnippet]), the
    file compiler and execution adapter ([parse]).

    JavaScript strings are modelled as [string] (code units below 256),
    arrays as [list], [undefined] as [None].  Exceptions are explicit
    ([completion]); the host (the [RegExp] constructor, [new Function],
    [require], the console) is a parameter of the development. *)

From Stdlib Require Import String Ascii List ZArith Lia Bool Arith DecimalString.
Import ListNotations.
Open Scope string_scope.

(** ** Host string primitives *)

Module JsString.

(** The double quote and the line feed, as one-character strings. *)
Definition dq : string := String "034"%char EmptyString.
Definition nl : string := String "010"%char EmptyString.
Definition cr : string := String "013"%char EmptyString.

(** [s.startsWith(p)] *)
Fixpoint startsWith (s p : string) {struct p} : bool :=
  match p with
  | EmptyString => true
  | String a p' =>
      match s with
      | EmptyString => false
      | String b s' => Ascii.eqb a b && startsWith s' p'
      end
  end.

(** [s.includes(p)] *)
Fixpoint includes (s p : string) : bool :=
  if startsWith s p then true
  else match s with
       | EmptyString => false
       | String _ s' => includes s' p
       end.

(** [s.endsWith(p)] *)
Fixpoint endsWith (s p : string) : bool :=
  if String.eqb s p then true
  else match s with
       | EmptyString => false
       | String _ s' => endsWith s' p
       end.

(** [s.substring(n)] *)
Fixpoint substring_from (n : nat) (s : string) : string :=
  match n, s with
  | O, _ => s
  | S n', String _ s' => substring_from n' s'
  | S _, EmptyString => EmptyString
  end.

(** [s.substring(0, n)] *)
Fixpoint substring_to (n : nat) (s : string) : string :=
  match n, s with
  | O, _ => EmptyString
  | S n', String c s' => String c (substring_to n' s')
  | S _, EmptyString => EmptyString
  end.

(** White space and line terminators of ECMAScript, below code unit 256. *)
Definition isWhiteSpace (c : ascii) : bool :=
  let n := nat_of_ascii c in
  ((n =? 9) || (n =? 10) || (n =? 11) || (n =? 12) || (n =? 13)
   || (n =? 32) || (n =? 160))%nat.

Fixpoint trimStart (s : string) : string :=
  match s with
  | EmptyString => EmptyString
  | String c s' => if isWhiteSpace c then trimStart s' else s
  end.

Fixpoint trimEnd (s : string) : string :=
  match s with
  | EmptyString => EmptyString
  | String c s' =>
      match trimEnd s' with
      | EmptyString => if isWhiteSpace c then EmptyString else String c EmptyString
      | t => String c t
      end
  end.

(** [s.trim()] *)
Definition trim (s : string) : string := trimEnd (trimStart s).

(** [s.replace(/c/g, by)] for a one-character pattern and a replacement
    without [$]. *)
Fixpoint replace_all (c : ascii) (by_ : string) (s : string) : string :=
  match s with
  | EmptyString => EmptyString
  | String d s' =>
      if Ascii.eqb d c then by_ ++ replace_all c by_ s'
      else String d (replace_all c by_ s')
  end.

(** [l.join(sep)] *)
Definition join (sep : string) (l : list string) : string := String.concat sep l.

(** The longest prefix whose characters satisfy [p], and what follows it:
    a greedy character-class repetition. *)
Fixpoint span (p : ascii -> bool) (s : string) : string * string :=
  match s with
  | EmptyString => (EmptyString, EmptyString)
  | String c s' =>
      if p c then let (a, b) := span p s' in (String c a, b)
      else (EmptyString, s)
  end.

(** [s] without the prefix [p], when it starts with it. *)
Fixpoint strip_prefix (p s : string) : option string :=
  match p, s with
  | EmptyString, _ => Some s
  | String a p', String b s' => if Ascii.eqb a b then strip_prefix p' s' else None
  | String _ _, EmptyString => None
  end.

(** [content.split(/\r?\n/)]: a line ends at a line feed, and a carriage
    return just before that line feed belongs to the separator. *)
Fixpoint split_lines (s : string) : list string :=
  match s with
  | EmptyString => [EmptyString]
  | String c s' =>
      if Ascii.eqb c "010" then EmptyString :: split_lines s'
      else
        let continue_ :=
          match split_lines s' with
          | l :: ls => String c l :: ls
          | [] => [String c EmptyString]
          end in
        if Ascii.eqb c "013" then
          match s' with
          | String d s'' => if Ascii.eqb d "010" then EmptyString :: split_lines s'' else continue_
          | EmptyString => continue_
          end
        else continue_
  end.

End JsString.
Import JsString.

(** ** The delimiter of script blocks *)

Definition CODE_DELIMITER : string := "``".

(** [CODE_DELIMITER_REGEX] matches at the head of [s]: two backticks that are
    not followed by a third one. *)
Definition CODE_DELIMITER_REGEX_at (s : string) : bool :=
  startsWith s CODE_DELIMITER
  && negb (startsWith (substring_from (String.length CODE_DELIMITER) s) "`").

(** [line.split(CODE_DELIMITER_REGEX)], as its first piece and the other
    pieces: the scan of [String.prototype.split] moves one character forward
    where the pattern does not match and jumps over the match where it does. *)
Fixpoint split_CODE_DELIMITER_REGEX (s : string) : string * list string :=
  match s with
  | EmptyString => (EmptyString, [])
  | String c s' =>
      let skip := let (h, t) := split_CODE_DELIMITER_REGEX s' in (String c h, t) in
      if CODE_DELIMITER_REGEX_at s then
        match s' with
        | String _ s'' => let (h, t) := split_CODE_DELIMITER_REGEX s'' in (EmptyString, h :: t)
        | EmptyString => skip
        end
      else skip
  end.

(** The index of the first match of [CODE_DELIMITER_REGEX] in [s]. *)
Fixpoint CODE_DELIMITER_REGEX_index (s : string) : option nat :=
  if CODE_DELIMITER_REGEX_at s then Some O
  else match s with
       | EmptyString => None
       | String _ s' => option_map S (CODE_DELIMITER_REGEX_index s')
       end.

(** ** Exceptions and the console *)

(** A thrown value: an [Error] object with its [name] and [message], or any
    other value, kept as the text [String(error)] gives. *)
Inductive js_exn : Type :=
| ErrorObject (name message : string)
| ThrownValue (text : string).

Inductive completion (A : Type) : Type :=
| Normal (a : A)
| Throw (e : js_exn).
Arguments Normal {A} a.
Arguments Throw {A} e.

Inductive console_entry : Type :=
| console_warn (text : string) (error : js_exn)
| console_error (text : string) (error : js_exn).

Definition console : Type := list console_entry.

(** Computations that may throw and write to the console. *)
Definition M (A : Type) : Type := console -> completion A * console.

Definition ret {A} (a : A) : M A := fun out => (Normal a, out).
Definition throw {A} (e : js_exn) : M A := fun out => (Throw e, out).
Definition log (entry : console_entry) : M unit := fun out => (Normal tt, (out ++ [entry])%list).
Definition bind {A B} (c : M A) (k : A -> M B) : M B :=
  fun out => match c out with
             | (Normal a, out') => k a out'
             | (Throw e, out') => (Throw e, out')
             end.
Definition try_catch {A} (c : M A) (handler : js_exn -> M A) : M A :=
  fun out => match c out with
             | (Normal a, out') => (Normal a, out')
             | (Throw e, out') => handler e out'
             end.

Declare Scope js_scope.
Delimit Scope js_scope with js.
Notation "x <- c ;; k" := (bind c (fun x => k))
  (at level 61, c at next level, right associativity) : js_scope.
Notation "c ;;; k" := (bind c (fun _ => k))
  (at level 61, right associativity) : js_scope.

(** ** Snippet headers *)

(** [Number(s) || 0] on a trimmed text.  Decimal digit strings of at most 15
    digits are computed; [NumberOf s] stands for the value of any other text. *)
Inductive jsnumber : Type :=
| Num (z : Z)
| NumberOf (literal : string).

Definition digit_value (c : ascii) : option Z :=
  let n := nat_of_ascii c in
  if ((48 <=? n) && (n <=? 57))%nat then Some (Z.of_nat (n - 48)) else None.

Fixpoint digits_value (acc : Z) (s : string) : option Z :=
  match s with
  | EmptyString => Some acc
  | String c s' =>
      match digit_value c with
      | Some d => digits_value (10 * acc + d) s'
      | None => None
      end
  end.

Definition decimal_digits (s : string) : option Z :=
  match s with
  | EmptyString => None
  | _ => if (String.length s <=? 15)%nat then digits_value 0 s else None
  end.

Definition Number_or_0 (s : string) : jsnumber :=
  match s with
  | EmptyString => Num 0
  | _ => match decimal_digits s with
         | Some z => Num z
         | None => NumberOf s
         end
  end.

(** [string | RegExp], and [undefined] where no trigger group matched. *)
Inductive Trigger : Type :=
| TriggerString (s : string)
| TriggerUndefined
| TriggerRegExp (source flags : string).

(** The interface is declared in [hsnippet.ts]; its fields are those
    [parser.ts] reads and writes.  [priority] is absent until [parse] sets
    it. *)
Record IHSnippetHeader : Type := {
  trigger : Trigger;
  description : string;
  flags : string;
  priority : option jsnumber
}.

(** The capture groups of a match of [HEADER_REGEXP]. *)
Record header_match : Type := {
  match1 : option string;
  match2 : option string;
  match3 : option string;
  match4 : option string
}.

Definition is_backtick (c : ascii) : bool := Ascii.eqb c "`".
Definition is_dquote (c : ascii) : bool := Ascii.eqb c "034".
Definition is_flag (c : ascii) : bool :=
  Ascii.eqb c "A" || Ascii.eqb c "M" || Ascii.eqb c "i" || Ascii.eqb c "w" || Ascii.eqb c "b".

(** A delimiter [d], then one or more characters other than [d], then [d]:
    the backtick group of the pattern trigger and the double-quote group of
    the description. *)
Definition delimited (is_d : ascii -> bool) (s : string) : option (string * string) :=
  match s with
  | String c s1 =>
      if is_d c then
        match span (fun x => negb (is_d x)) s1 with
        | (String a inner, String _ after) => Some (String a inner, after)
        | _ => None
        end
      else None
  | EmptyString => None
  end.

(** [s] after one space, when it starts with a space. *)
Definition after_space (s : string) : option string :=
  match s with
  | String c r => if Ascii.eqb c " " then Some r else None
  | EmptyString => None
  end.

(** [HEADER_REGEXP.exec(s)]: the keyword [snippet], an optional space, an
    optional trigger (a backtick group, else a run of non-space characters),
    an optional space and quoted description, an optional space and run of
    flag characters.  Each optional part is tried greedily and skipped where
    it fails; what follows any part can match the empty text, so no choice is
    revisited. *)
Definition HEADER_REGEXP_exec (s : string) : option header_match :=
  match strip_prefix "snippet" s with
  | None => None
  | Some s1 =>
      let s2 := match after_space s1 with Some r => r | None => s1 end in
      let '(m1, m2, s3) :=
        match delimited is_backtick s2 with
        | Some (p, r) => (Some p, None, r)
        | None =>
            match span (fun x => negb (isWhiteSpace x)) s2 with
            | (String a w, r) => (None, Some (String a w), r)
            | (EmptyString, _) => (None, None, s2)
            end
        end in
      let '(m3, s4) :=
        match after_space s3 with
        | Some q =>
            match delimited is_dquote q with
            | Some (d, r) => (Some d, r)
            | None => (None, s3)
            end
        | None => (None, s3)
        end in
      let m4 :=
        match after_space s4 with
        | Some r => Some (fst (span is_flag r))
        | None => None
        end in
      Some {| match1 := m1; match2 := m2; match3 := m3; match4 := m4 |}
  end.

(** JavaScript truthiness of [string | undefined]. *)
Definition truthy (o : option string) : bool :=
  match o with
  | Some (String _ _) => true
  | _ => false
  end.

(** [o || ''] *)
Definition or_empty (o : option string) : string :=
  match o with
  | Some s => s
  | None => EmptyString
  end.

(** What [parseSnippetHeader] does to a pattern before compiling it. *)
Definition anchored (p : string) : string :=
  if negb (endsWith p "$") then p ++ "$" else p.

Section Header.

(** [new RegExp(source, flags)]: the exception the host raises for a source
    it rejects, if any. *)
Variable RegExp_error : string -> string -> option js_exn.

Definition parseSnippetHeader (header : string) : completion IHSnippetHeader :=
  match HEADER_REGEXP_exec header with
  | None => Throw (ErrorObject "Error" "Invalid snippet header")
  | Some m =>
      let result trigger :=
        Normal {| trigger := trigger;
                  description := or_empty (match3 m);
                  flags := or_empty (match4 m);
                  priority := None |} in
      if truthy (match1 m) then
        let source := anchored (or_empty (match1 m)) in
        match RegExp_error source "m" with
        | Some e => Throw e
        | None => result (TriggerRegExp source "m")
        end
      else
        result (match match2 m with
                | Some s => TriggerString s
                | None => TriggerUndefined
                end)
  end.

End Header.

(** ** The body compiler *)

Record IHSnippetInfo : Type := {
  body : string;
  contextFilter : option string;
  header : IHSnippetHeader
}.

Definition bs : string := String "092"%char EmptyString.

(** Backslashes are doubled first, then double quotes are escaped. *)
Definition escapeString (s : string) : string :=
  replace_all "034" (bs ++ dq) (replace_all "092" (bs ++ bs) s).

(** The statements [parseSnippet] emits, as the source writes them. *)
Definition stmt_open : string := "(t, m, w, path, snip) => {".
Definition stmt_let_rv : string := "let rv = " ++ dq ++ dq ++ ";".
Definition stmt_let_result : string := "let _result = [];".
Definition stmt_let_blockResults : string := "let _blockResults = [];".
Definition stmt_push_block : string := "_result.push({block: _blockResults.length});".
Definition stmt_push_blockResult : string := "_blockResults.push(String(rv));".
Definition stmt_push_text (text : string) : string :=
  "_result.push(" ++ dq ++ escapeString text ++ dq ++ ");".
Definition stmt_push_newline : string := "_result.push(" ++ dq ++ bs ++ "n" ++ dq ++ ");".
Definition stmt_reset_rv : string := "rv = " ++ dq ++ dq ++ ";".
Definition stmt_return : string := "return [_result, _blockResults];".
Definition stmt_close : string := "}".

(** [script.push(a, ...)] and [script.pop()] on the array of emitted lines. *)
Definition push (script : list string) (items : list string) : list string :=
  (script ++ items)%list.
Definition pop (script : list string) : list string := removelast script.

(** The [while] loop of [parseSnippet]: the state is the shared array
    [lines], the emitted [script] and the mode [isCode]; the result is the
    script and the lines left to the caller.  One unit of fuel is one
    iteration. *)
Fixpoint parseSnippet_loop (fuel : nat) (lines script : list string) (isCode : bool)
  : option (list string * list string) :=
  match lines with
  | [] => Some (script, [])
  | line :: lines =>
      match fuel with
      | O => None
      | S fuel =>
          if isCode then
            if negb (includes line CODE_DELIMITER) then
              parseSnippet_loop fuel lines (push script [trim line]) true
            else
              let (code, rest) := split_CODE_DELIMITER_REGEX line in
              parseSnippet_loop fuel (join CODE_DELIMITER rest :: lines)
                (push script [trim code; stmt_push_block; stmt_push_blockResult]) false
          else
            if startsWith line "endsnippet" then Some (script, lines)
            else if negb (includes line CODE_DELIMITER) then
              parseSnippet_loop fuel lines
                (push script [stmt_push_text line; stmt_push_newline]) false
            else if Bool.eqb isCode false then
              let (text, rest) := split_CODE_DELIMITER_REGEX line in
              parseSnippet_loop fuel (join CODE_DELIMITER rest :: lines)
                (push script [stmt_push_text text; stmt_reset_rv]) true
            else parseSnippet_loop fuel lines script isCode
      end
  end.

(** Fuel that the loop cannot exhaust: a line pushed back is shorter than the
    line it comes from. *)
Fixpoint body_fuel (lines : list string) : nat :=
  match lines with
  | [] => O
  | line :: lines => S (String.length line + body_fuel lines)
  end.

Definition script_prologue : list string :=
  [stmt_open; stmt_let_rv; stmt_let_result; stmt_let_blockResults].

(** What follows the loop: the last emitted line is removed and the function
    is closed. *)
Definition finish_script (script : list string) : list string :=
  push (push (pop script) [stmt_return]) [stmt_close].

Section Parser.

Variable RegExp_error : string -> string -> option js_exn.

(** [parseSnippet(headerLine, lines)]: the snippet and the lines it leaves
    in the shared array. *)
Definition parseSnippet (headerLine : string) (lines : list string)
  : option (completion (IHSnippetInfo * list string)) :=
  match parseSnippetHeader RegExp_error headerLine with
  | Throw e => Some (Throw e)
  | Normal header =>
      match parseSnippet_loop (body_fuel lines) lines script_prologue false with
      | None => None
      | Some (script, lines') =>
          Some (Normal ({| body := join nl (finish_script script);
                           contextFilter := None;
                           header := header |}, lines'))
      end
  end.

(** ** The file compiler *)

(** The local variables of [parse] during its [while] loop. *)
Record parse_state : Type := {
  snippetInfos : list IHSnippetInfo;
  script : list string;
  isCode : bool;
  pending_priority : jsnumber;
  context : option string
}.

Definition parse_init : parse_state :=
  {| snippetInfos := []; script := []; isCode := false;
     pending_priority := Num 0; context := None |}.

Definition set_header_priority (h : IHSnippetHeader) (p : jsnumber) : IHSnippetHeader :=
  {| trigger := trigger h; description := description h; flags := flags h;
     priority := Some p |}.

(** [text || undefined] *)
Definition or_undefined (text : string) : option string :=
  match text with
  | EmptyString => None
  | _ => Some text
  end.

(** The [while] loop of [parse]; one unit of fuel is one iteration. *)
Fixpoint parse_loop (fuel : nat) (lines : list string) (st : parse_state)
  : option (completion parse_state) :=
  match lines with
  | [] => Some (Normal st)
  | line :: lines =>
      match fuel with
      | O => None
      | S fuel =>
          if isCode st then
            if startsWith line "endglobal" then
              parse_loop fuel lines
                {| snippetInfos := snippetInfos st; script := script st; isCode := false;
                   pending_priority := pending_priority st; context := context st |}
            else
              parse_loop fuel lines
                {| snippetInfos := snippetInfos st; script := push (script st) [line];
                   isCode := isCode st;
                   pending_priority := pending_priority st; context := context st |}
          else if startsWith line "#" then parse_loop fuel lines st
          else if startsWith line "global" then
            parse_loop fuel lines
              {| snippetInfos := snippetInfos st; script := script st; isCode := true;
                 pending_priority := pending_priority st; context := context st |}
          else if startsWith line "priority " then
            parse_loop fuel lines
              {| snippetInfos := snippetInfos st; script := script st; isCode := isCode st;
                 pending_priority :=
                   Number_or_0 (trim (substring_from (String.length "priority ") line));
                 context := context st |}
          else if startsWith line "context " then
            parse_loop fuel lines
              {| snippetInfos := snippetInfos st; script := script st; isCode := isCode st;
                 pending_priority := pending_priority st;
                 context :=
                   or_undefined (trim (substring_from (String.length "context ") line)) |}
          else
            match HEADER_REGEXP_exec line with
            | Some _ =>
                match parseSnippet line lines with
                | None => None
                | Some (Throw e) => Some (Throw e)
                | Some (Normal (info, lines')) =>
                    let info' :=
                      {| body := body info;
                         contextFilter := context st;
                         header := set_header_priority (header info) (pending_priority st) |} in
                    parse_loop fuel lines'
                      {| snippetInfos := (snippetInfos st ++ [info'])%list;
                         script := script st; isCode := isCode st;
                         pending_priority := Num 0; context := None |}
                end
            | None => parse_loop fuel lines st
            end
      end
  end.

(** The lines appended after the loop: the array literal of the snippets. *)
Definition snippet_entry (snippet : IHSnippetInfo) : list string :=
  let script := ["{"] in
  let script :=
    if truthy (contextFilter snippet)
    then push script ["contextFilter: (context) => (" ++ or_empty (contextFilter snippet) ++ "),"]
    else script in
  let script := push script ["generatorFunction: " ++ body snippet] in
  push script ["},"].

Definition assemble (st : parse_state) : list string :=
  push (fold_left (fun script snippet => push script (snippet_entry snippet))
                  (snippetInfos st) (push (script st) ["return ["]))
       ["]"].

(** The first half of [parse], up to the [try]: the parsed snippets and the
    text handed to [new Function]. *)
Definition compile (content : string) : option (completion (list IHSnippetInfo * string)) :=
  let lines := split_lines content in
  match parse_loop (List.length lines) lines parse_init with
  | None => None
  | Some (Throw e) => Some (Throw e)
  | Some (Normal st) => Some (Normal (snippetInfos st, join nl (assemble st)))
  end.

End Parser.

(** ** Generator functions *)

(** An element of the array a generator returns first: a text, or the
    object [{block: n}] that refers to the [n]-th block result. *)
Inductive segment : Type :=
| Text (text : string)
| Block (block : nat).

Definition GeneratorResult : Type := (list segment * list string)%type.

(** [_result] put back together, a block reference standing for the text
    [show n] of its block. *)
Fixpoint materialize (show : nat -> string) (segments : list segment) : string :=
  match segments with
  | [] => EmptyString
  | Text text :: rest => text ++ materialize show rest
  | Block n :: rest => show n ++ materialize show rest
  end.

Definition is_text (s : segment) : bool :=
  match s with
  | Text _ => true
  | Block _ => false
  end.

Fixpoint block_references (segments : list segment) : list nat :=
  match segments with
  | [] => []
  | Text _ :: rest => block_references rest
  | Block n :: rest => n :: block_references rest
  end.

(** ** The execution adapter *)

Definition error_text (error : js_exn) : string :=
  match error with
  | ErrorObject _ message => message
  | ThrownValue text => text
  end.

(** The explanations [parse] puts before the text of a failure. *)
Definition redeclaration_hint : string :=
  "Variable redeclaration detected in global block. Please check for duplicate variable declarations like 'let', 'const', or 'var' statements. ".
Definition document_hint : string :=
  "Trying to access 'document' property of undefined. This usually happens when 'vscode.window.activeTextEditor' is null (no active editor). Consider adding null checks: 'let editor = vscode.window.activeTextEditor; if (editor) { let document = editor.document; }'. ".
Definition undefined_property_hint : string :=
  "Accessing property of undefined object. This often happens when variables are not properly initialized or when VS Code objects are not available during parsing. ".
Definition undefined_variable_hint : string :=
  "Undefined variable detected. Make sure all variables used in your snippets are properly declared in the global block. ".

(** The message [parse] builds in its [catch] from the text of the failure. *)
Definition enrich (errorMessage : string) : string :=
  if includes errorMessage "has already been declared" then
    redeclaration_hint ++ "Original error: " ++ errorMessage
  else if includes errorMessage "Cannot read properties of undefined" then
    if includes errorMessage "document" then
      document_hint ++ "Original error: " ++ errorMessage
    else
      undefined_property_hint ++ "Original error: " ++ errorMessage
  else if includes errorMessage "is not defined" then
    undefined_variable_hint ++ "Original error: " ++ errorMessage
  else errorMessage.

Section Adapter.

(** The values of the host: modules, arguments of generators. *)
Variable JsValue : Type.

Definition GeneratorFunction : Type := list JsValue -> completion GeneratorResult.
Definition ContextFilter : Type := JsValue -> completion bool.

Record IHSnippetParseResult : Type := {
  result_contextFilter : option ContextFilter;
  generatorFunction : GeneratorFunction
}.

(** Modelled from the spec: the class [HSnippet] of [hsnippet.ts] is not
    among the sources; the produced artifact is the header, the generator
    function and the optional context filter the constructor receives. *)
Record HSnippet : Type := {
  snippet_header : IHSnippetHeader;
  snippet_generator : GeneratorFunction;
  snippet_contextFilter : option ContextFilter
}.

Variable RegExp_error : string -> string -> option js_exn.

(** The [require] of the host. *)
Variable require : string -> completion JsValue.

(** [new Function('require', script)]: it throws on a text it cannot
    compile, else gives the function that is called with the module
    resolver. *)
Variable new_Function :
  string -> completion ((string -> M (option JsValue)) -> M (list IHSnippetParseResult)).

(** [safeRequire]; [None] is [null]. *)
Definition safeRequire (moduleName : string) : M (option JsValue) :=
  try_catch
    (match require moduleName with
     | Normal module => ret (Some module)
     | Throw e => throw e
     end)
    (fun error =>
       (log (console_warn ("[HSnips] Could not require module '" ++ moduleName ++ "':") error) ;;;
        ret None)%js).

(** [snippetInfos.map((s, i) => new HSnippet(...))]; reading a property of
    [generators[i]] throws where the array is too short. *)
Fixpoint build_snippets (infos : list IHSnippetInfo) (i : nat)
         (generators : list IHSnippetParseResult) : completion (list HSnippet) :=
  match infos with
  | [] => Normal []
  | s :: infos =>
      match nth_error generators i with
      | None =>
          Throw (ErrorObject "TypeError"
                   "Cannot read properties of undefined (reading 'generatorFunction')")
      | Some g =>
          match build_snippets infos (S i) generators with
          | Throw e => Throw e
          | Normal snippets =>
              Normal ({| snippet_header := header s;
                         snippet_generator := generatorFunction g;
                         snippet_contextFilter := result_contextFilter g |} :: snippets)
          end
      end
  end.

(** The [try] block of [parse]: the unit is compiled and called once. *)
Definition execution (wrappedScript : string) : M (list IHSnippetParseResult) :=
  match new_Function wrappedScript with
  | Throw e => throw e
  | Normal executionFunction => executionFunction safeRequire
  end.

(** The [try] block with its [catch]. *)
Definition execute (wrappedScript : string) : M (list IHSnippetParseResult) :=
  try_catch
    (execution wrappedScript)
    (fun error =>
       (log (console_error "[HSnips] Error executing snippet code:" error) ;;;
        throw (ErrorObject "Error"
                 ("Failed to parse snippet code: " ++ enrich (error_text error))))%js).

(** [parse(content)]; [None] only if a loop ran out of fuel. *)
Definition parse (content : string) : option (M (list HSnippet)) :=
  match compile RegExp_error content with
  | None => None
  | Some (Throw e) => Some (throw e)
  | Some (Normal (snippetInfos, wrappedScript)) =>
      Some (generators <- execute wrappedScript ;;
            match build_snippets snippetInfos 0 generators with
            | Normal snippets => ret snippets
            | Throw e => throw e
            end)%js
  end.

End Adapter.

(** ** A reference semantics for compiled generators

    What the script engine does with the text [parse] hands to it, on the
    fragment this development evaluates: a compilation unit with an empty
    preamble and no context filter, whose generator bodies hold the
    statements [parseSnippet] emits and, as script lines, constant
    statements ([rv = e] or [e], with [e] a sum of decimal literals or a
    string literal).  Every function answers [None] outside that fragment. *)

Module Reference.

Inductive value : Type :=
| VString (s : string)
| VNumber (z : Z).

(** The statements of a generator body after its [let rv] and
    [let _result] lines. *)
Inductive stmt : Type :=
| SPushText (text : string)   (* _result.push(<string literal>); *)
| SPushBlock                  (* _result.push({block: _blockResults.length}); *)
| SPushBlockResult            (* _blockResults.push(String(rv)); *)
| SAssignRv (v : value)       (* rv = <constant> *)
| SNop.                       (* <constant>, or an empty line *)

(** The body of a string literal up to its closing quote, decoded, and the
    text after the quote.  The escapes read are the backslash, the quote
    and [n]; a raw line terminator ends the fragment. *)
Fixpoint string_literal (s : string) : option (string * string) :=
  match s with
  | EmptyString => None
  | String c s' =>
      if Ascii.eqb c "034" then Some (EmptyString, s')
      else if Ascii.eqb c "010" || Ascii.eqb c "013" then None
      else if Ascii.eqb c "092" then
        match s' with
        | String e s'' =>
            let decoded :=
              if Ascii.eqb e "092" then Some "092"%char
              else if Ascii.eqb e "034" then Some "034"%char
              else if Ascii.eqb e "n" then Some "010"%char
              else None in
            match decoded, string_literal s'' with
            | Some d, Some (text, after) => Some (String d text, after)
            | _, _ => None
            end
        | EmptyString => None
        end
      else
        match string_literal s' with
        | Some (text, after) => Some (String c text, after)
        | None => None
        end
  end.

(** [s.split('+')] *)
Fixpoint split_plus (s : string) : string * list string :=
  match s with
  | EmptyString => (EmptyString, [])
  | String c s' =>
      let (h, t) := split_plus s' in
      if Ascii.eqb c "+" then (EmptyString, h :: t) else (String c h, t)
  end.

(** A decimal literal without a leading zero, of at most 15 digits. *)
Definition decimal_literal (s : string) : option Z :=
  match s with
  | String c (String _ _) => if Ascii.eqb c "0" then None else decimal_digits s
  | _ => decimal_digits s
  end.

Fixpoint sum_literals (parts : list string) : option Z :=
  match parts with
  | [] => Some 0%Z
  | p :: parts =>
      match decimal_literal p, sum_literals parts with
      | Some a, Some b => Some (a + b)%Z
      | _, _ => None
      end
  end.

(** The value of a constant expression: one string literal, or a sum of
    decimal literals that stays exact. *)
Definition constant (e : string) : option value :=
  match strip_prefix dq e with
  | Some e' =>
      match string_literal e' with
      | Some (text, after) =>
          if String.eqb after EmptyString then Some (VString text) else None
      | None => None
      end
  | None =>
      let (h, t) := split_plus e in
      match sum_literals (h :: t) with
      | Some z => if (z <=? 9007199254740992)%Z then Some (VNumber z) else None
      | None => None
      end
  end.

(** [s] without one final semicolon. *)
Fixpoint without_semicolon (s : string) : string :=
  match s with
  | EmptyString => EmptyString
  | String c EmptyString => if Ascii.eqb c ";" then EmptyString else s
  | String c s' => String c (without_semicolon s')
  end.

Definition classify (line : string) : option stmt :=
  if String.eqb line stmt_push_block then Some SPushBlock
  else if String.eqb line stmt_push_blockResult then Some SPushBlockResult
  else if String.eqb line EmptyString then Some SNop
  else
    match strip_prefix ("_result.push(" ++ dq) line with
    | Some r =>
        match string_literal r with
        | Some (text, after) =>
            if String.eqb after ");" then Some (SPushText text) else None
        | None => None
        end
    | None =>
        let e := without_semicolon line in
        match strip_prefix "rv = " e with
        | Some e' => option_map SAssignRv (constant e')
        | None => option_map (fun _ => SNop) (constant e)
        end
    end.

(** [String(v)] *)
Definition String_of (v : value) : string :=
  match v with
  | VString s => s
  | VNumber z => DecimalString.NilZero.string_of_int (Z.to_int z)
  end.

(** The local variables of a running generator; [_blockResults] is [None]
    where the body does not declare it. *)
Record scope : Type := {
  rv : value;
  _result : list segment;
  _blockResults : option (list string)
}.

Definition ReferenceError (name : string) : js_exn :=
  ErrorObject "ReferenceError" (name ++ " is not defined").

Definition exec (s : stmt) (sc : scope) : completion scope :=
  match s with
  | SPushText text =>
      Normal {| rv := rv sc; _result := (_result sc ++ [Text text])%list;
                _blockResults := _blockResults sc |}
  | SPushBlock =>
      match _blockResults sc with
      | Some results =>
          Normal {| rv := rv sc;
                    _result := (_result sc ++ [Block (List.length results)])%list;
                    _blockResults := _blockResults sc |}
      | None => Throw (ReferenceError "_blockResults")
      end
  | SPushBlockResult =>
      match _blockResults sc with
      | Some results =>
          Normal {| rv := rv sc; _result := _result sc;
                    _blockResults := Some (results ++ [String_of (rv sc)])%list |}
      | None => Throw (ReferenceError "_blockResults")
      end
  | SAssignRv v =>
      Normal {| rv := v; _result := _result sc; _blockResults := _blockResults sc |}
  | SNop => Normal sc
  end.

(** The statements in order, then [return [_result, _blockResults];]. *)
Fixpoint run (stmts : list stmt) (sc : scope) : completion GeneratorResult :=
  match stmts with
  | [] =>
      match _blockResults sc with
      | Some results => Normal (_result sc, results)
      | None => Throw (ReferenceError "_blockResults")
      end
  | s :: stmts =>
      match exec s sc with
      | Normal sc' => run stmts sc'
      | Throw e => Throw e
      end
  end.

(** A generator function value: whether its body declares
    [_blockResults], and its statements. *)
Record closure : Type := {
  declares_blockResults : bool;
  statements : list stmt
}.

Definition call (f : closure) : completion GeneratorResult :=
  run (statements f)
      {| rv := VString EmptyString; _result := [];
         _blockResults := if declares_blockResults f then Some [] else None |}.

(** Where the reader is in the text of a compilation unit. *)
Inductive reader : Type :=
| AtStart                                   (* before the return line *)
| Elements                                  (* between array elements *)
| Element                                   (* after an opening brace *)
| LetRv | LetResult                         (* the first lines of a body *)
| FirstStatement                            (* where let _blockResults may stand *)
| Statements (f : closure)                  (* inside a body *)
| AfterReturn (f : closure)
| AfterBody (f : closure)
| Done.

Fixpoint read_unit (at_ : reader) (read : list closure) (lines : list string)
  : option (list closure) :=
  match lines with
  | [] => match at_ with Done => Some read | _ => None end
  | line :: lines =>
      match at_ with
      | AtStart =>
          if String.eqb line "return [" then read_unit Elements read lines else None
      | Elements =>
          if String.eqb line "{" then read_unit Element read lines
          else if String.eqb line "]" then read_unit Done read lines
          else None
      | Element =>
          if String.eqb line ("generatorFunction: " ++ stmt_open)
          then read_unit LetRv read lines else None
      | LetRv =>
          if String.eqb line stmt_let_rv then read_unit LetResult read lines else None
      | LetResult =>
          if String.eqb line stmt_let_result then read_unit FirstStatement read lines else None
      | FirstStatement =>
          if String.eqb line stmt_let_blockResults then
            read_unit (Statements {| declares_blockResults := true; statements := [] |})
                      read lines
          else if String.eqb line stmt_return then
            read_unit (AfterReturn {| declares_blockResults := false; statements := [] |})
                      read lines
          else
            match classify line with
            | Some s =>
                read_unit (Statements {| declares_blockResults := false; statements := [s] |})
                          read lines
            | None => None
            end
      | Statements f =>
          if String.eqb line stmt_return then read_unit (AfterReturn f) read lines
          else
            match classify line with
            | Some s =>
                read_unit (Statements {| declares_blockResults := declares_blockResults f;
                                         statements := (statements f ++ [s])%list |})
                          read lines
            | None => None
            end
      | AfterReturn f =>
          if String.eqb line stmt_close then read_unit (AfterBody f) read lines else None
      | AfterBody f =>
          if String.eqb line "}," then read_unit Elements (read ++ [f])%list lines else None
      | Done => None
      end
  end.

(** [text.split(line feed)] *)
Fixpoint source_lines (s : string) : list string :=
  match s with
  | EmptyString => [EmptyString]
  | String c s' =>
      if Ascii.eqb c "010" then EmptyString :: source_lines s'
      else match source_lines s' with
           | l :: ls => String c l :: ls
           | [] => [String c EmptyString]
           end
  end.

(** The generator functions a compilation unit evaluates to. *)
Definition eval_unit (wrappedScript : string) : option (list closure) :=
  read_unit AtStart [] (source_lines wrappedScript).

(** The function a generator source text denotes, by itself. *)
Definition eval_generator (body : string) : option closure :=
  match eval_unit (join nl ["return ["; "{"; "generatorFunction: " ++ body; "},"; "]"]) with
  | Some [f] => Some f
  | _ => None
  end.

Section Engine.

Variable JsValue : Type.

Definition as_result (f : closure) : IHSnippetParseResult JsValue :=
  {| result_contextFilter := None; generatorFunction := fun _ => call f |}.

(** A host engine agrees with the reference semantics when, on every
    unit of the fragment, it compiles the text and the call returns the
    generators of [eval_unit] without writing to the console. *)
Definition agrees
  (new_Function : string ->
     completion ((string -> M (option JsValue)) -> M (list (IHSnippetParseResult JsValue))))
  : Prop :=
  forall wrappedScript closures,
    eval_unit wrappedScript = Some closures ->
    exists executionFunction,
      new_Function wrappedScript = Normal executionFunction /\
      forall resolver out,
        executionFunction resolver out = (Normal (map as_result closures), out).

(** The engine that does just that, and rejects any other text. *)
Definition reference_engine (wrappedScript : string)
  : completion ((string -> M (option JsValue)) -> M (list (IHSnippetParseResult JsValue))) :=
  match eval_unit wrappedScript with
  | Some closures => Normal (fun _ => ret (map as_result closures))
  | None => Throw (ErrorObject "SyntaxError" "outside the evaluated fragment")
  end.

End Engine.

End Reference.

(** ** Predicates used in the statements *)

(** Every character of [s] satisfies [p]. *)
Fixpoint all_chars (p : ascii -> bool) (s : string) : bool :=
  match s with
  | EmptyString => true
  | String c s' => p c && all_chars p s'
  end.

(** Three backticks stand at index [i] of [s]. *)
Definition three_backticks_at (s : string) (i : nat) : bool :=
  startsWith (substring_from i s) "```".

(** The two characters at indices [p] and [p + 1] of [s] lie within three
    consecutive backticks. *)
Definition inside_three_backticks (s : string) (p : nat) : bool :=
  three_backticks_at s p
  || match p with
     | O => false
     | S q => three_backticks_at s q
     end.

(** A body line that is plain text: no delimiter, and not the terminator. *)
Definition plain_text (line : string) : bool :=
  negb (includes line CODE_DELIMITER) && negb (startsWith line "endsnippet").

(** No raw line terminator, which a string literal of the script cannot hold. *)
Definition no_line_terminator (line : string) : bool :=
  all_chars (fun c => negb (Ascii.eqb c "010" || Ascii.eqb c "013")) line.

(** The statements [parseSnippet] emits for plain text lines. *)
Definition text_statements (lines : list string) : list string :=
  flat_map (fun line => [stmt_push_text line; stmt_push_newline]) lines.

(** The generator source [parseSnippet] builds for a body of plain text
    lines. *)
Definition plain_body_source (lines : list string) : string :=
  join nl (finish_script (push script_prologue (text_statements lines))).

Arguments result_contextFilter {JsValue} _.
Arguments generatorFunction {JsValue} _.
Arguments snippet_header {JsValue} _.
Arguments snippet_generator {JsValue} _.
Arguments snippet_contextFilter {JsValue} _.

(** A host without modules and a [RegExp] constructor that accepts every
    source, for the examples. *)
Definition no_module (moduleName : string) : completion unit :=
  Throw (ErrorObject "Error" ("Cannot find module '" ++ moduleName ++ "'")).
Definition RegExp_accepts (source flags : string) : option js_exn := None.

(** The end-to-end example of the specification, and the same file with a
    block that assigns the accumulator. *)
Definition foo_file : string :=
  "snippet foo " ++ dq ++ "Foo" ++ dq ++ nl ++ "hello ``1+1`` world" ++ nl ++ "endsnippet".
Definition foo_file_assigning : string :=
  "snippet foo " ++ dq ++ "Foo" ++ dq ++ nl ++ "hello ``rv = 1+1`` world" ++ nl ++ "endsnippet".

(** A snippet without a body; a snippet whose terminator follows the closing
    delimiter of a block on the same line, with one block and with two. *)
Definition empty_body_file : string := "snippet foo" ++ nl ++ "endsnippet".
Definition glued_terminator_file : string :=
  "snippet foo" ++ nl ++ "``rv = 1``endsnippet".
Definition two_blocks_glued_file : string :=
  "snippet foo" ++ nl ++ "``rv = 1`` and ``rv = 2``endsnippet".
Definition two_blocks_file : string :=
  "snippet foo" ++ nl ++ "``rv = 1`` and ``rv = 2``" ++ nl ++ "endsnippet".

(** What the reference engine makes of a file: the outcome of each
    generator, called once. *)
Definition run_file (content : string) : option (list (completion GeneratorResult)) :=
  match parse unit RegExp_accepts no_module (Reference.reference_engine unit) content with
  | Some m =>
      match m [] with
      | (Normal snippets, _) => Some (map (fun s => snippet_generator s []) snippets)
      | (Throw _, _) => None
      end
  | None => None
  end.

(** A line of a generator body and the statement the reference reader makes
    of it. *)
Definition reads_as (line : string) (s : Reference.stmt) : Prop :=
  no_line_terminator line = true /\
  String.eqb line stmt_return = false /\
  Reference.classify line = Some s.

(** The texts pushed for the lines [B] followed by a last line. *)
Definition pushed_texts (B : list string) (last : string) : list string :=
  (flat_map (fun l => [l; nl]) B ++ [last])%list.

(** The three emitted statements that mention [_blockResults] after the
    prologue. *)
Definition is_block_statement (line : string) : bool :=
  String.eqb line stmt_push_block || String.eqb line stmt_push_blockResult
  || String.eqb line stmt_return.

(** Emitted lines in which the two statements of a closed block stand
    together, and nowhere else. *)
Inductive paired : list string -> Prop :=
| paired_nil : paired []
| paired_block (rest : list string) :
    paired rest -> paired (stmt_push_block :: stmt_push_blockResult :: rest)
| paired_other (line : string) (rest : list string) :
    is_block_statement line = false -> paired rest -> paired (line :: rest).

(** The same for the statements read from them. *)
Inductive paired_stmts : list Reference.stmt -> Prop :=
| paired_stmts_nil : paired_stmts []
| paired_stmts_block (rest : list Reference.stmt) :
    paired_stmts rest ->
    paired_stmts (Reference.SPushBlock :: Reference.SPushBlockResult :: rest)
| paired_stmts_other (s : Reference.stmt) (rest : list Reference.stmt) :
    s <> Reference.SPushBlock -> s <> Reference.SPushBlockResult ->
    paired_stmts rest -> paired_stmts (s :: rest).

(** A body line the invariant of block references is proved for: no raw
    line terminator, no mention of [_blockResults], and no terminator right
    after a delimiter. *)
Definition regular_line (line : string) : bool :=
  no_line_terminator line
  && negb (includes line "_blockResults")
  && negb (includes line (CODE_DELIMITER ++ "endsnippet")).

(** The text [s] does not mention [_blockResults]. *)
Definition no_block_word (s : string) : Prop := includes s "_blockResults" = false.


(** A body line that does not end the body: it does not start with the
    terminator, and the terminator does not follow a delimiter in it. *)
Definition unterminated_line (line : string) : bool :=
  negb (startsWith line "endsnippet")
  && negb (includes line (CODE_DELIMITER ++ "endsnippet")).

(** ** Further predicates used in the statements *)

(** A character that is not white space: what the literal trigger group of
    the header pattern takes. *)
Definition is_nonspace (c : ascii) : bool := negb (isWhiteSpace c).

(** What holds of every header [parseSnippetHeader] returns. *)
Definition well_formed_trigger (t : Trigger) : Prop :=
  match t with
  | TriggerString s => s <> EmptyString /\ all_chars is_nonspace s = true
  | TriggerUndefined => True
  | TriggerRegExp source flags =>
      flags = "m" /\ endsWith source "$" = true /\
      all_chars (fun c => negb (is_backtick c)) source = true
  end.

(** The snippet [parse] builds from a parsed declaration and the artifact of
    the same index. *)
Definition make_snippet (JsValue : Type)
  (pair : IHSnippetInfo * IHSnippetParseResult JsValue) : HSnippet JsValue :=
  {| snippet_header := header (fst pair);
     snippet_generator := generatorFunction (snd pair);
     snippet_contextFilter := result_contextFilter (snd pair) |}.

(** A [RegExp] constructor that rejects the unterminated group [($]. *)
Definition RegExp_rejects_open_group (source flags : string) : option js_exn :=
  if String.eqb source "($"
  then Some (ErrorObject "SyntaxError" "Invalid regular expression: /($/: Unterminated group")
  else None.

(** No line feed in the text. *)
Definition no_line_feed (s : string) : bool :=
  all_chars (fun c => negb (Ascii.eqb c "010")) s.

(** The separator of lines in a file with Windows line endings. *)
Definition crlf : string := cr ++ nl.



(** ** Anchors *)

(** Whether the character that follows [s] in a pattern is escaped: a
    pattern is read from the left, and a backslash that is not itself escaped
    escapes the next character. *)
Fixpoint escapes_next (escaped : bool) (s : string) : bool :=
  match s with
  | EmptyString => escaped
  | String c s' => escapes_next (negb escaped && Ascii.eqb c "092") s'
  end.

(** The pattern text ends in a line-end anchor: its last character is a [$]
    that no backslash escapes.  (An escaped [$] matches a dollar sign.) *)
Fixpoint ends_in_anchor_from (escaped : bool) (s : string) : bool :=
  match s with
  | EmptyString => false
  | String c s' =>
      match s' with
      | EmptyString => negb escaped && Ascii.eqb c "$"
      | String _ _ => ends_in_anchor_from (negb escaped && Ascii.eqb c "092") s'
      end
  end.

Definition ends_in_anchor (s : string) : bool := ends_in_anchor_from false s.

(** No backslash in the text. *)
Definition no_backslash (s : string) : bool :=
  all_chars (fun c => negb (Ascii.eqb c "092")) s.

(** ** Declarations with a plain body *)

Section PlainDeclarations.

Variable RegExp_error : string -> string -> option js_exn.


End PlainDeclarations.


(** ** An early error of the engine *)

Definition is_letter (c : ascii) : bool :=
  let n := nat_of_ascii c in
  (((65 <=? n) && (n <=? 90)) || ((97 <=? n) && (n <=? 122)))%nat.

(** The words that are not plain identifiers: after or before one of them
    another word may stand, or the error is another one. *)
Definition reserved_words : list string :=
  ["async"; "await"; "break"; "case"; "catch"; "class"; "const"; "continue";
   "debugger"; "default"; "delete"; "do"; "else"; "enum"; "export"; "extends";
   "false"; "finally"; "for"; "function"; "get"; "if"; "implements"; "import";
   "in"; "instanceof"; "interface"; "let"; "new"; "null"; "of"; "package";
   "private"; "protected"; "public"; "return"; "set"; "static"; "super";
   "switch"; "this"; "throw"; "true"; "try"; "typeof"; "using"; "var"; "void";
   "while"; "with"; "yield"].

(** A line made of two identifiers with one space between them: no
    statement starts so, and the engine reports the second identifier as
    unexpected. *)
Definition unexpected_identifier (line : string) : option string :=
  let (first, rest) := span is_letter line in
  match rest with
  | String separator second =>
      if Ascii.eqb separator " "
         && negb (String.eqb first EmptyString)
         && negb (String.eqb second EmptyString)
         && all_chars is_letter second
         && negb (existsb (String.eqb first) reserved_words)
         && negb (existsb (String.eqb second) reserved_words)
      then Some second else None
  | EmptyString => None
  end.

(** The reference engine, which also reports that error where the unit
    starts with such a line: [new Function] compiles the whole text before
    anything runs, and the first error of the text is the one thrown. *)
Definition early_error_engine (wrappedScript : string)
  : completion ((string -> M (option unit)) -> M (list (IHSnippetParseResult unit))) :=
  match Reference.source_lines wrappedScript with
  | first :: _ =>
      match unexpected_identifier first with
      | Some word =>
          Throw (ErrorObject "SyntaxError" ("Unexpected identifier '" ++ word ++ "'"))
      | None => Reference.reference_engine unit wrappedScript
      end
  | [] => Reference.reference_engine unit wrappedScript
  end.

(** A file whose [global] block is not closed before a declaration. *)
Definition unclosed_global_file : string :=
  "global" ++ nl ++ "snippet foo" ++ nl ++ "bar" ++ nl ++ "endsnippet".

(** ** Files made of whole constructs *)










(** ** Bodies whose script blocks close on their line *)

Definition backtick_free (s : string) : bool :=
  all_chars (fun c => negb (is_backtick c)) s.

(** The text a block of the evaluated fragment leaves for its block result:
    the block assigns a constant to [rv], or it is a constant or empty and
    leaves [rv] as it was reset. *)
Definition block_value (code : string) : option string :=
  match Reference.classify (trim code) with
  | Some (Reference.SAssignRv v) => Some (Reference.String_of v)
  | Some Reference.SNop => Some EmptyString
  | _ => None
  end.

(** A body line written as a text followed by blocks: each block is two
    backticks, its code, two backticks, and the text after it. *)
Fixpoint block_line (text : string) (blocks : list (string * string)) : string :=
  match blocks with
  | [] => text
  | (code, after) :: blocks =>
      text ++ CODE_DELIMITER ++ code ++ CODE_DELIMITER ++ block_line after blocks
  end.

(** A text of such a line: no backtick, no raw line terminator, and it does
    not start with the terminator. *)
Definition text_piece (text : string) : bool :=
  backtick_free text && no_line_terminator text && negb (startsWith text "endsnippet").

(** The code of a block: not empty, no backtick, no raw line terminator, and
    in the evaluated fragment. *)
Definition code_piece (code : string) : bool :=
  backtick_free code && no_line_terminator code && negb (String.eqb code EmptyString)
  && match block_value code with Some _ => true | None => false end.

(** Texts and codes are as above, and the text between two blocks is not
    empty (four backticks in a row would be split elsewhere). *)
Fixpoint well_formed_line (text : string) (blocks : list (string * string)) : bool :=
  text_piece text &&
  match blocks with
  | [] => true
  | (code, after) :: blocks' =>
      code_piece code
      && (negb (String.eqb after EmptyString)
          || match blocks' with [] => true | _ :: _ => false end)
      && well_formed_line after blocks'
  end.

Definition block_body : Type := list (string * list (string * string)).

Definition block_body_lines (pieces : block_body) : list string :=
  map (fun l => block_line (fst l) (snd l)) pieces.

(** The statements [parseSnippet] emits for such a line, without the
    statement that pushes the line feed. *)
Fixpoint line_front (text : string) (blocks : list (string * string)) : list string :=
  match blocks with
  | [] => [stmt_push_text text]
  | (code, after) :: blocks =>
      stmt_push_text text :: stmt_reset_rv :: trim code
      :: stmt_push_block :: stmt_push_blockResult :: line_front after blocks
  end.

Definition block_body_statements (pieces : block_body) : list string :=
  flat_map (fun l => line_front (fst l) (snd l) ++ [stmt_push_newline])%list pieces.

(** The same statements as the reference semantics reads them. *)
Definition code_stmt (code : string) : Reference.stmt :=
  match Reference.classify (trim code) with
  | Some s => s
  | None => Reference.SNop
  end.

Fixpoint line_front_stmts (text : string) (blocks : list (string * string))
  : list Reference.stmt :=
  match blocks with
  | [] => [Reference.SPushText text]
  | (code, after) :: blocks =>
      Reference.SPushText text
      :: Reference.SAssignRv (Reference.VString EmptyString)
      :: code_stmt code
      :: Reference.SPushBlock :: Reference.SPushBlockResult
      :: line_front_stmts after blocks
  end.

Definition block_body_stmts (pieces : block_body) : list Reference.stmt :=
  flat_map (fun l => line_front_stmts (fst l) (snd l) ++ [Reference.SPushText nl])%list
           pieces.

(** The segments of such a line, its blocks numbered from [n], without the
    line feed. *)
Fixpoint front_segments (n : nat) (text : string) (blocks : list (string * string))
  : list segment :=
  match blocks with
  | [] => [Text text]
  | (_, after) :: blocks => Text text :: Block n :: front_segments (S n) after blocks
  end.

(** The segments of the body: each line followed by a line feed, the blocks
    numbered in order from [n]. *)
Fixpoint body_segments (n : nat) (pieces : block_body) : list segment :=
  match pieces with
  | [] => []
  | (text, blocks) :: pieces =>
      (front_segments n text blocks ++ [Text nl]
       ++ body_segments (n + List.length blocks) pieces)%list
  end.

(** The block results: the value of each block, in order. *)
Definition line_values (blocks : list (string * string)) : list string :=
  map (fun b => match block_value (fst b) with Some v => v | None => EmptyString end)
      blocks.

Definition body_values (pieces : block_body) : list string :=
  flat_map (fun l => line_values (snd l)) pieces.

(** Iterations of the body loop on such a body, before [fuel] more: one for
    each text and one for each block. *)
Fixpoint block_body_fuel (pieces : block_body) (fuel : nat) : nat :=
  match pieces with
  | [] => fuel
  | (_, blocks) :: pieces => 2 * List.length blocks + S (block_body_fuel pieces fuel)
  end.

(** * Facts about the string primitives *)

Section StringFacts.

Lemma string_ind2 (P : string -> Prop) :
  P EmptyString ->
  (forall c, P (String c EmptyString)) ->
  (forall c d s, P s -> P (String d s) -> P (String c (String d s))) ->
  forall s, P s.
Proof.
  intros H0 H1 H2.
  assert (both : forall s, P s /\ forall c, P (String c s)).
  { induction s as [|d s [IHs IHc]]; split; auto. }
  intro s. apply both.
Qed.

Lemma append_empty_r (s : string) : s ++ EmptyString = s.
Proof. induction s; simpl; congruence. Qed.

Lemma append_assoc (a b c : string) : (a ++ b) ++ c = a ++ b ++ c.
Proof. induction a; simpl; congruence. Qed.

Lemma length_append (a b : string) :
  String.length (a ++ b) = String.length a + String.length b.
Proof. induction a; simpl; congruence. Qed.

Lemma startsWith_append (p s : string) : startsWith (p ++ s) p = true.
Proof.
  induction p as [|c p IH]; simpl; [reflexivity|].
  now rewrite Ascii.eqb_refl.
Qed.

Lemma startsWith_inv (s p : string) :
  startsWith s p = true -> exists t, s = p ++ t.
Proof.
  revert s. induction p as [|c p IH]; intros s H; simpl in *.
  - now exists s.
  - destruct s as [|d s]; [discriminate|].
    apply andb_prop in H as [Hc H]. apply Ascii.eqb_eq in Hc as ->.
    destruct (IH _ H) as [t ->]. now exists t.
Qed.

Lemma startsWith_includes (s p : string) :
  startsWith s p = true -> includes s p = true.
Proof. intro H. destruct s; simpl in *; now rewrite H. Qed.

Lemma includes_cons (c : ascii) (s p : string) :
  includes s p = true -> includes (String c s) p = true.
Proof. intro H. cbn [includes]. rewrite H. now destruct startsWith. Qed.

Lemma includes_append_r (a b p : string) :
  includes b p = true -> includes (a ++ b) p = true.
Proof.
  induction a; intro H; [exact H|].
  change (String a a0 ++ b) with (String a (a0 ++ b)).
  now apply includes_cons, IHa.
Qed.

Lemma substring_to_from (n : nat) (s : string) :
  substring_to n s ++ substring_from n s = s.
Proof.
  revert s. induction n as [|n IH]; intros [|c s]; simpl; try reflexivity.
  now rewrite IH.
Qed.

Lemma endsWith_append (p q : string) : endsWith (p ++ q) q = true.
Proof.
  induction p as [|c p IH].
  - change (EmptyString ++ q) with q.
    destruct q; [reflexivity|]. cbn [endsWith]. now rewrite String.eqb_refl.
  - change (String c p ++ q) with (String c (p ++ q)).
    cbn [endsWith]. rewrite IH. now destruct String.eqb.
Qed.

Lemma endsWith_tail (c : ascii) (s q : string) :
  endsWith (String c s) q = false -> endsWith s q = false.
Proof. cbn [endsWith]. destruct String.eqb; [discriminate|auto]. Qed.

Lemma endsWith_not_doubled (p : string) :
  endsWith p "$" = false -> endsWith (p ++ "$") "$$" = false.
Proof.
  induction p as [|c p IH]; intro H; [reflexivity|].
  pose proof (endsWith_tail _ _ _ H) as Ht.
  change (String c p ++ "$") with (String c (p ++ "$")).
  cbn [endsWith]. rewrite (IH Ht).
  destruct (String.eqb_spec (String c (p ++ "$")) "$$") as [E|]; [|reflexivity].
  injection E as -> E. destruct p as [|d p]; [discriminate H|].
  simpl in E. injection E as _ E. destruct p; discriminate E.
Qed.

Lemma span_append (f : ascii -> bool) (p : string) (c : ascii) (rest : string) :
  all_chars f p = true -> f c = false ->
  span f (p ++ String c rest) = (p, String c rest).
Proof.
  intros Hp Hc. induction p as [|a p IH]; simpl in *.
  - now rewrite Hc.
  - apply andb_prop in Hp as [Ha Hp]. now rewrite Ha, (IH Hp).
Qed.

End StringFacts.

(** * The delimiter scan *)

Section Delimiter.

Lemma join_cons_char (sep : string) (c : ascii) (h : string) (t : list string) :
  join sep (String c h :: t) = String c (join sep (h :: t)).
Proof. destruct t; reflexivity. Qed.

Lemma join_cons2 (sep h x : string) (t : list string) :
  join sep (h :: x :: t) = h ++ sep ++ join sep (x :: t).
Proof. reflexivity. Qed.

Lemma regex_at_inv (s : string) :
  CODE_DELIMITER_REGEX_at s = true ->
  exists t, s = CODE_DELIMITER ++ t /\ startsWith t "`" = false.
Proof.
  unfold CODE_DELIMITER_REGEX_at. intro H.
  apply andb_prop in H as [Hp Hn].
  destruct (startsWith_inv _ _ Hp) as [t ->].
  exists t. split; [reflexivity|].
  change (substring_from (String.length CODE_DELIMITER) (CODE_DELIMITER ++ t)) with t in Hn.
  now apply negb_true_iff in Hn.
Qed.

Lemma regex_at_intro (t : string) :
  startsWith t "`" = false -> CODE_DELIMITER_REGEX_at (CODE_DELIMITER ++ t) = true.
Proof.
  intro H. unfold CODE_DELIMITER_REGEX_at.
  change (substring_from (String.length CODE_DELIMITER) (CODE_DELIMITER ++ t)) with t.
  rewrite H. reflexivity.
Qed.

Lemma split_cons_skip (c : ascii) (s : string) :
  CODE_DELIMITER_REGEX_at (String c s) = false ->
  split_CODE_DELIMITER_REGEX (String c s) =
  (String c (fst (split_CODE_DELIMITER_REGEX s)), snd (split_CODE_DELIMITER_REGEX s)).
Proof.
  intro H. cbn [split_CODE_DELIMITER_REGEX]. rewrite H.
  now destruct (split_CODE_DELIMITER_REGEX s).
Qed.

Lemma split_cons_match (t : string) :
  startsWith t "`" = false ->
  split_CODE_DELIMITER_REGEX (CODE_DELIMITER ++ t) =
  (EmptyString, fst (split_CODE_DELIMITER_REGEX t) :: snd (split_CODE_DELIMITER_REGEX t)).
Proof.
  intro H. change (CODE_DELIMITER ++ t) with (String "`" (String "`" t)).
  cbn [split_CODE_DELIMITER_REGEX].
  change (String "`" (String "`" t)) with (CODE_DELIMITER ++ t).
  rewrite (regex_at_intro _ H).
  now destruct (split_CODE_DELIMITER_REGEX t).
Qed.

(** Joining the pieces with the delimiter gives the line back. *)
Lemma split_join (s : string) :
  join CODE_DELIMITER
       (fst (split_CODE_DELIMITER_REGEX s) :: snd (split_CODE_DELIMITER_REGEX s)) = s.
Proof.
  induction s as [|c|c d s IH1 IH2] using string_ind2.
  - reflexivity.
  - rewrite split_cons_skip; [reflexivity|].
    unfold CODE_DELIMITER_REGEX_at. cbn [startsWith CODE_DELIMITER].
    now rewrite andb_false_r.
  - destruct (CODE_DELIMITER_REGEX_at (String c (String d s))) eqn:E.
    + destruct (regex_at_inv _ E) as [t [Et Ht]].
      injection Et as -> -> ->.
      change (String "`" (String "`" t)) with (CODE_DELIMITER ++ t).
      rewrite (split_cons_match _ Ht). cbn [fst snd].
      rewrite join_cons2, IH1. reflexivity.
    + rewrite (split_cons_skip _ _ E). cbn [fst snd].
      now rewrite join_cons_char, IH2.
Qed.

Lemma index_cons (c : ascii) (s : string) :
  CODE_DELIMITER_REGEX_index (String c s) =
  if CODE_DELIMITER_REGEX_at (String c s) then Some 0
  else option_map S (CODE_DELIMITER_REGEX_index s).
Proof. reflexivity. Qed.

(** A line that includes the delimiter has a match of the pattern: the
    last two backticks of the first run of two or more. *)
Lemma includes_index (s : string) :
  includes s CODE_DELIMITER = true -> exists p, CODE_DELIMITER_REGEX_index s = Some p.
Proof.
  induction s as [|c s IH]; [discriminate|].
  intro H. rewrite index_cons.
  destruct (CODE_DELIMITER_REGEX_at (String c s)) eqn:E; [now exists 0|].
  assert (Hs : includes s CODE_DELIMITER = true).
  { cbn [includes] in H.
    destruct (startsWith (String c s) CODE_DELIMITER) eqn:P; [|exact H].
    destruct (startsWith_inv _ _ P) as [t Et]. injection Et as -> ->.
    change (String "`" (String "`" t)) with (CODE_DELIMITER ++ t) in E.
    destruct (startsWith t "`") eqn:Ht;
      [|rewrite (regex_at_intro _ Ht) in E; discriminate].
    apply startsWith_includes.
    change (startsWith (String "`" t) CODE_DELIMITER)
      with (Ascii.eqb "`" "`" && startsWith t "`").
    now rewrite Ht. }
  destruct (IH Hs) as [p ->]. now exists (S p).
Qed.

Lemma index_includes (s : string) (p : nat) :
  CODE_DELIMITER_REGEX_index s = Some p -> includes s CODE_DELIMITER = true.
Proof.
  revert p. induction s as [|c s IH]; intros p H; [discriminate|].
  rewrite index_cons in H.
  destruct (CODE_DELIMITER_REGEX_at (String c s)) eqn:E.
  - apply startsWith_includes. unfold CODE_DELIMITER_REGEX_at in E.
    now apply andb_prop in E as [E _].
  - destruct (CODE_DELIMITER_REGEX_index s) as [q|]; [|discriminate].
    apply includes_cons. now apply (IH q).
Qed.

Lemma no_delimiter_index (s : string) :
  includes s CODE_DELIMITER = false -> CODE_DELIMITER_REGEX_index s = None.
Proof.
  intro H. destruct (CODE_DELIMITER_REGEX_index s) as [p|] eqn:E; [|reflexivity].
  apply index_includes in E. congruence.
Qed.

Lemma split_no_match (s : string) :
  CODE_DELIMITER_REGEX_index s = None -> split_CODE_DELIMITER_REGEX s = (s, []).
Proof.
  induction s as [|c s IH]; [reflexivity|].
  rewrite index_cons.
  destruct (CODE_DELIMITER_REGEX_at (String c s)) eqn:E; [discriminate|].
  intro H. rewrite (split_cons_skip _ _ E).
  destruct (CODE_DELIMITER_REGEX_index s); [discriminate|].
  now rewrite IH.
Qed.

(** The split happens at the first match: the first piece is what stands
    before it and the other pieces, joined, are what stands after it. *)
Lemma split_at_index (s : string) (p : nat) :
  CODE_DELIMITER_REGEX_index s = Some p ->
  fst (split_CODE_DELIMITER_REGEX s) = substring_to p s /\
  snd (split_CODE_DELIMITER_REGEX s) <> [] /\
  join CODE_DELIMITER (snd (split_CODE_DELIMITER_REGEX s)) =
  substring_from (p + String.length CODE_DELIMITER) s.
Proof.
  revert p. induction s as [|c s IH]; intros p H; [discriminate|].
  rewrite index_cons in H.
  destruct (CODE_DELIMITER_REGEX_at (String c s)) eqn:E.
  - injection H as <-.
    destruct (regex_at_inv _ E) as [t [Et Ht]]. rewrite Et.
    rewrite (split_cons_match _ Ht). cbn [fst snd].
    repeat split; [discriminate|]. apply split_join.
  - destruct (CODE_DELIMITER_REGEX_index s) as [q|]; [|discriminate].
    injection H as <-. rewrite (split_cons_skip _ _ E). cbn [fst snd].
    destruct (IH q eq_refl) as [Hf [Hn Hj]].
    repeat split; [now rewrite Hf | exact Hn | exact Hj].
Qed.

(** The match found is the first one, and it is two backticks with no
    backtick after them. *)
Lemma index_first (s : string) (p : nat) :
  CODE_DELIMITER_REGEX_index s = Some p ->
  CODE_DELIMITER_REGEX_at (substring_from p s) = true /\
  forall q, q < p -> CODE_DELIMITER_REGEX_at (substring_from q s) = false.
Proof.
  revert p. induction s as [|c s IH]; intros p H; [discriminate|].
  rewrite index_cons in H.
  destruct (CODE_DELIMITER_REGEX_at (String c s)) eqn:E.
  - injection H as <-. split; [exact E|]. intros q Hq. lia.
  - destruct (CODE_DELIMITER_REGEX_index s) as [r|]; [|discriminate].
    injection H as <-. destruct (IH r eq_refl) as [Hm Hf].
    split; [exact Hm|]. intros [|q] Hq; [exact E|]. apply Hf. lia.
Qed.

(** What is pushed back is shorter than the line by the delimiter at least. *)
Lemma pushed_back_shorter (s : string) :
  includes s CODE_DELIMITER = true ->
  String.length (join CODE_DELIMITER (snd (split_CODE_DELIMITER_REGEX s))) + 2
  <= String.length s.
Proof.
  intro H. destruct (includes_index _ H) as [p Hp].
  destruct (split_at_index _ _ Hp) as [_ [Hn _]].
  pose proof (split_join s) as J.
  destruct (snd (split_CODE_DELIMITER_REGEX s)) as [|x t]; [congruence|].
  rewrite join_cons2 in J. apply (f_equal String.length) in J.
  rewrite !length_append in J. change (String.length CODE_DELIMITER) with 2 in J.
  lia.
Qed.

Lemma pushed_back_suffix (s : string) :
  includes s CODE_DELIMITER = true ->
  exists before,
    s = before ++ join CODE_DELIMITER (snd (split_CODE_DELIMITER_REGEX s)).
Proof.
  intro H. destruct (includes_index _ H) as [p Hp].
  destruct (split_at_index _ _ Hp) as [_ [_ Hj]].
  rewrite Hj. exists (substring_to (p + String.length CODE_DELIMITER) s).
  symmetry. apply substring_to_from.
Qed.

Lemma split_decompose (s : string) :
  includes s CODE_DELIMITER = true ->
  s = fst (split_CODE_DELIMITER_REGEX s) ++ CODE_DELIMITER
      ++ join CODE_DELIMITER (snd (split_CODE_DELIMITER_REGEX s)).
Proof.
  intro H. destruct (includes_index _ H) as [p Hp].
  destruct (split_at_index _ _ Hp) as [_ [Hn _]].
  pose proof (split_join s) as J.
  destruct (snd (split_CODE_DELIMITER_REGEX s)) as [|x t]; [congruence|].
  now rewrite join_cons2 in J.
Qed.

(** What is pushed back after a delimiter starts with the terminator only
    if the terminator follows a delimiter in the line. *)
Lemma pushed_back_unterminated (s : string) :
  includes s CODE_DELIMITER = true ->
  includes s (CODE_DELIMITER ++ "endsnippet") = false ->
  unterminated_line (join CODE_DELIMITER (snd (split_CODE_DELIMITER_REGEX s))) = true.
Proof.
  intros Hi Hn. pose proof (split_decompose _ Hi) as E.
  set (h := fst (split_CODE_DELIMITER_REGEX s)) in *.
  set (r := join CODE_DELIMITER (snd (split_CODE_DELIMITER_REGEX s))) in *.
  unfold unterminated_line.
  destruct (startsWith r "endsnippet") eqn:S.
  - destruct (startsWith_inv _ _ S) as [t Et].
    assert (includes s (CODE_DELIMITER ++ "endsnippet") = true); [|congruence].
    rewrite E, Et. apply includes_append_r, startsWith_includes.
    rewrite <- append_assoc. apply startsWith_append.
  - destruct (includes r (CODE_DELIMITER ++ "endsnippet")) eqn:I; [|reflexivity].
    apply (includes_append_r (h ++ CODE_DELIMITER)) in I.
    rewrite append_assoc, <- E in I. congruence.
Qed.

End Delimiter.

(** * One iteration of the body loop on a line with a delimiter *)

Section BodySteps.

Lemma substring_from_add (p n : nat) (s : string) :
  substring_from (p + n) s = substring_from n (substring_from p s).
Proof.
  revert s. induction p as [|p IH]; intros s; [reflexivity|].
  destruct s as [|c s]; simpl; [now destruct n|apply IH].
Qed.

Lemma loop_text_delimiter (fuel : nat) (line : string) (lines script : list string) :
  startsWith line "endsnippet" = false ->
  includes line CODE_DELIMITER = true ->
  parseSnippet_loop (S fuel) (line :: lines) script false =
  parseSnippet_loop fuel
    (join CODE_DELIMITER (snd (split_CODE_DELIMITER_REGEX line)) :: lines)
    (push script [stmt_push_text (fst (split_CODE_DELIMITER_REGEX line)); stmt_reset_rv])
    true.
Proof.
  intros He Hi. cbn [parseSnippet_loop]. rewrite He, Hi. cbn [negb Bool.eqb].
  now destruct (split_CODE_DELIMITER_REGEX line).
Qed.

Lemma loop_code_delimiter (fuel : nat) (line : string) (lines script : list string) :
  includes line CODE_DELIMITER = true ->
  parseSnippet_loop (S fuel) (line :: lines) script true =
  parseSnippet_loop fuel
    (join CODE_DELIMITER (snd (split_CODE_DELIMITER_REGEX line)) :: lines)
    (push script [trim (fst (split_CODE_DELIMITER_REGEX line));
                  stmt_push_block; stmt_push_blockResult])
    false.
Proof.
  intros Hi. cbn [parseSnippet_loop]. rewrite Hi. cbn [negb].
  now destruct (split_CODE_DELIMITER_REGEX line).
Qed.

Lemma loop_text_plain (fuel : nat) (line : string) (lines script : list string) :
  plain_text line = true ->
  parseSnippet_loop (S fuel) (line :: lines) script false =
  parseSnippet_loop fuel lines (push script [stmt_push_text line; stmt_push_newline]) false.
Proof.
  unfold plain_text. intro H. apply andb_prop in H as [Hi He].
  apply negb_true_iff in He. cbn [parseSnippet_loop]. now rewrite He, Hi.
Qed.

Lemma loop_code_plain (fuel : nat) (line : string) (lines script : list string) :
  includes line CODE_DELIMITER = false ->
  parseSnippet_loop (S fuel) (line :: lines) script true =
  parseSnippet_loop fuel lines (push script [trim line]) true.
Proof. intro Hi. cbn [parseSnippet_loop]. now rewrite Hi. Qed.

Lemma loop_endsnippet (fuel : nat) (line : string) (lines script : list string) :
  startsWith line "endsnippet" = true ->
  parseSnippet_loop (S fuel) (line :: lines) script false = Some (script, lines).
Proof. intro He. cbn [parseSnippet_loop]. now rewrite He. Qed.

End BodySteps.

(** * C4: where a body line is split *)

(** C4, as the code has it.  The delimiter is two backticks that are not
    followed by a third one.  A line without two consecutive backticks is not
    split.  A line with them is split, in text mode and in script mode alike,
    at the first index [p] where two backticks stand with no backtick after
    them: what stands before [p] is emitted, what stands after the two
    backticks is pushed back and scanned in the other mode.  Hence in a run of
    three or more backticks the last two are the delimiter and the backticks
    before them stay in the emitted piece. *)
Theorem delimiter_is_first_unfollowed_pair (line : string) :
  (includes line CODE_DELIMITER = false ->
   split_CODE_DELIMITER_REGEX line = (line, [])) /\
  (includes line CODE_DELIMITER = true ->
   exists p after,
     CODE_DELIMITER_REGEX_index line = Some p /\
     substring_from p line = CODE_DELIMITER ++ after /\
     startsWith after "`" = false /\
     (forall q, q < p -> CODE_DELIMITER_REGEX_at (substring_from q line) = false) /\
     (forall fuel lines script,
        startsWith line "endsnippet" = false ->
        parseSnippet_loop (S fuel) (line :: lines) script false =
        parseSnippet_loop fuel (after :: lines)
          (push script [stmt_push_text (substring_to p line); stmt_reset_rv]) true) /\
     (forall fuel lines script,
        parseSnippet_loop (S fuel) (line :: lines) script true =
        parseSnippet_loop fuel (after :: lines)
          (push script [trim (substring_to p line); stmt_push_block; stmt_push_blockResult])
          false)).
Proof.
  split.
  - intro H. apply split_no_match, no_delimiter_index, H.
  - intro H. destruct (includes_index _ H) as [p Hp].
    destruct (index_first _ _ Hp) as [Hm Hfirst].
    destruct (regex_at_inv _ Hm) as [after [Ea Ha]].
    destruct (split_at_index _ _ Hp) as [Hf [_ Hj]].
    assert (Hafter : join CODE_DELIMITER (snd (split_CODE_DELIMITER_REGEX line)) = after).
    { rewrite Hj, substring_from_add, Ea. reflexivity. }
    exists p, after. repeat split; auto.
    + intros fuel lines script He.
      now rewrite (loop_text_delimiter _ _ _ _ He H), Hafter, Hf.
    + intros fuel lines script.
      now rewrite (loop_code_delimiter _ _ _ _ H), Hafter, Hf.
Qed.

Lemma delimiter_is_first_unfollowed_pair_witness :
  exists p after,
    CODE_DELIMITER_REGEX_index "x ``rv = 1`` y" = Some p /\
    substring_from p "x ``rv = 1`` y" = CODE_DELIMITER ++ after.
Proof.
  destruct (proj2 (delimiter_is_first_unfollowed_pair "x ``rv = 1`` y") eq_refl)
    as (p & after & Hp & Ha & _).
  exists p, after. split; assumption.
Defined.

(** C4 as the specification words it fails: the line [a```b] is split at
    index 2, inside its three backticks, and the piece emitted in text mode is
    [a`]. *)
Lemma three_backticks_are_split :
  ~ (forall line p,
       CODE_DELIMITER_REGEX_index line = Some p ->
       inside_three_backticks line p = false).
Proof.
  intro claim. specialize (claim "a```b" 2 eq_refl). discriminate claim.
Qed.

Example three_backticks_text_mode :
  parseSnippet_loop 1 ["a```b"] [] false =
  parseSnippet_loop 0 ["b"] [stmt_push_text "a`"; stmt_reset_rv] true.
Proof. reflexivity. Qed.

(** * C5: pattern triggers *)

Section PatternTrigger.

Lemma strip_prefix_append (p s : string) : strip_prefix p (p ++ s) = Some s.
Proof.
  induction p as [|c p IH]; simpl; [now destruct s|].
  now rewrite Ascii.eqb_refl.
Qed.

Lemma strip_prefix_startsWith (p s : string) :
  strip_prefix p s = None <-> startsWith s p = false.
Proof.
  revert s. induction p as [|c p IH]; intros s.
  - destruct s; simpl; split; discriminate.
  - destruct s as [|d s]; simpl; [tauto|].
    rewrite Ascii.eqb_sym.
    destruct (Ascii.eqb d c); simpl; [apply IH|tauto].
Qed.

(** The header pattern matches exactly the lines that start with the
    keyword. *)
Lemma HEADER_REGEXP_matches (line : string) :
  HEADER_REGEXP_exec line = None <-> startsWith line "snippet" = false.
Proof.
  rewrite <- strip_prefix_startsWith. unfold HEADER_REGEXP_exec.
  destruct (strip_prefix "snippet" line) as [s1|]; [|tauto].
  split; [|discriminate].
  destruct (delimited is_backtick _) as [[? ?]|];
    [|destruct (span _ _) as [[|? ?] ?]];
    (destruct (after_space _) as [?|]; [destruct (delimited is_dquote _) as [[? ?]|]|]);
    discriminate.
Qed.

Lemma header_pattern_group (p rest : string) :
  p <> EmptyString ->
  all_chars (fun c => negb (is_backtick c)) p = true ->
  option_map match1 (HEADER_REGEXP_exec ("snippet `" ++ p ++ "`" ++ rest)) = Some (Some p).
Proof.
  intros Hne Hp. unfold HEADER_REGEXP_exec.
  change ("snippet `" ++ p ++ "`" ++ rest)
    with ("snippet" ++ String " " (String "`" (p ++ String "`" rest))).
  rewrite strip_prefix_append.
  change (after_space (String " " (String "`" (p ++ String "`" rest))))
    with (Some (String "`" (p ++ String "`" rest))).
  cbv beta iota.
  assert (D : delimited is_backtick (String "`" (p ++ String "`" rest)) = Some (p, rest)).
  { unfold delimited. change (is_backtick "`") with true. cbv iota.
    rewrite span_append by (auto; reflexivity).
    destruct p; [contradiction|reflexivity]. }
  rewrite D.
  destruct (after_space rest) as [?|]; [destruct (delimited is_dquote _) as [[? ?]|]|];
    reflexivity.
Qed.

Variable RegExp_error : string -> string -> option js_exn.

Lemma anchored_ends (p : string) : endsWith (anchored p) "$" = true.
Proof.
  unfold anchored. destruct (endsWith p "$") eqn:E; simpl; [exact E|].
  apply endsWith_append.
Qed.

Lemma ends_in_anchor_from_append (s : string) :
  forall escaped,
    ends_in_anchor_from escaped (s ++ "$") = negb (escapes_next escaped s).
Proof.
  induction s as [|c s IH]; intro escaped.
  - cbn. now rewrite andb_true_r.
  - change (String c s ++ "$") with (String c (s ++ "$")).
    cbn [ends_in_anchor_from escapes_next].
    rewrite <- IH. now destruct s.
Qed.

Lemma no_backslash_escapes_next (s : string) :
  no_backslash s = true -> escapes_next false s = false.
Proof.
  induction s as [|c s IH]; [reflexivity|].
  unfold no_backslash. cbn [all_chars escapes_next]. intro H.
  apply andb_prop in H as [Hc Hs]. apply negb_true_iff in Hc.
  rewrite Hc. now apply IH.
Qed.

Lemma no_backslash_anchor (s : string) :
  no_backslash s = true -> endsWith s "$" = true -> ends_in_anchor s = true.
Proof.
  unfold ends_in_anchor. induction s as [|c s IH]; [discriminate|].
  unfold no_backslash. cbn [all_chars]. intros H He.
  apply andb_prop in H as [Hc Hs]. apply negb_true_iff in Hc.
  cbn [ends_in_anchor_from]. destruct s as [|d s].
  - cbn [endsWith] in He. destruct (String.eqb_spec (String c EmptyString) "$") as [E|E];
      [now injection E as ->|discriminate He].
  - rewrite Hc. cbn [negb andb]. apply IH; [exact Hs|].
    cbn [endsWith] in He.
    destruct (String.eqb_spec (String c (String d s)) "$") as [E|E]; [discriminate E|exact He].
Qed.

End PatternTrigger.

(** C5, as the code has it.  A header whose trigger is a backtick-delimited
    pattern [p] gives a [RegExp] trigger with the flag [m] (multiline).  The
    test the code makes is on the text: if [p] does not end with the
    character [$], the compiled source is [p] followed by one [$], and it does
    not end with two; if [p] ends with [$] already, the source is [p] itself.
    In both cases the source ends with [$].  The [$] that is appended is a
    line-end anchor unless [p] ends with a backslash that escapes it; for a
    pattern without backslash the source always ends in the anchor. *)
Theorem pattern_trigger_anchored_once
  (RegExp_error : string -> string -> option js_exn) (p rest : string) :
  p <> EmptyString ->
  all_chars (fun c => negb (is_backtick c)) p = true ->
  RegExp_error (anchored p) "m" = None ->
  exists h,
    parseSnippetHeader RegExp_error ("snippet `" ++ p ++ "`" ++ rest) = Normal h /\
    trigger h = TriggerRegExp (anchored p) "m" /\
    endsWith (anchored p) "$" = true /\
    (endsWith p "$" = false ->
     anchored p = p ++ "$" /\ endsWith (anchored p) "$$" = false /\
     ends_in_anchor (anchored p) = negb (escapes_next false p)) /\
    (endsWith p "$" = true -> anchored p = p) /\
    (no_backslash p = true -> ends_in_anchor (anchored p) = true).
Proof.
  intros Hne Hp Hok.
  pose proof (header_pattern_group p rest Hne Hp) as G.
  unfold parseSnippetHeader.
  destruct (HEADER_REGEXP_exec _) as [m|]; [|discriminate G].
  injection G as G. rewrite G.
  assert (T : truthy (Some p) = true) by (destruct p; [contradiction|reflexivity]).
  rewrite T. cbn [or_empty]. rewrite Hok.
  eexists. split; [reflexivity|]. split; [reflexivity|].
  split; [apply anchored_ends|]. unfold anchored.
  split; [|split]; intro E.
  - rewrite E. cbn [negb]. split; [reflexivity|].
    split; [now apply endsWith_not_doubled|].
    apply ends_in_anchor_from_append.
  - rewrite E. reflexivity.
  - destruct (endsWith p "$") eqn:D; cbn [negb].
    + now apply no_backslash_anchor.
    + unfold ends_in_anchor. rewrite ends_in_anchor_from_append.
      now rewrite no_backslash_escapes_next.
Qed.

Lemma pattern_trigger_anchored_once_witness :
  exists h,
    parseSnippetHeader (fun _ _ => None) "snippet `(\d+)/` iA" = Normal h /\
    trigger h = TriggerRegExp "(\d+)/$" "m" /\
    ends_in_anchor "(\d+)/$" = true.
Proof.
  destruct (pattern_trigger_anchored_once (fun _ _ => None) "(\d+)/" " iA")
    as (h & Hh & Ht & _); [discriminate | reflexivity | reflexivity |].
  exists h. split; [exact Hh|]. split; [exact Ht|reflexivity].
Defined.

(** C5, as the claim states it, fails on a pattern that ends with an escaped
    dollar sign: it does not end in a line-end anchor, and the code leaves it
    as it is, so the compiled source has no anchor at its end. *)
Lemma escaped_dollar_gets_no_anchor :
  ends_in_anchor ("a" ++ bs ++ "$") = false /\
  parseSnippetHeader RegExp_accepts ("snippet `a" ++ bs ++ "$`") =
  Normal {| trigger := TriggerRegExp ("a" ++ bs ++ "$") "m";
            description := EmptyString; flags := EmptyString; priority := None |} /\
  ~ (exists h source,
       parseSnippetHeader RegExp_accepts ("snippet `a" ++ bs ++ "$`") = Normal h /\
       trigger h = TriggerRegExp source "m" /\
       ends_in_anchor source = true).
Proof.
  split; [reflexivity|]. split; [reflexivity|].
  intros (h & source & Hh & Ht & Ha).
  assert (E : h = {| trigger := TriggerRegExp ("a" ++ bs ++ "$") "m";
                     description := EmptyString; flags := EmptyString;
                     priority := None |}).
  { assert (P : parseSnippetHeader RegExp_accepts ("snippet `a" ++ bs ++ "$`") =
                Normal {| trigger := TriggerRegExp ("a" ++ bs ++ "$") "m";
                          description := EmptyString; flags := EmptyString;
                          priority := None |}) by reflexivity.
    congruence. }
  subst h. cbn [trigger] in Ht. injection Ht as <-. discriminate Ha.
Qed.

(** * Termination of the two loops *)

Section Loops.

Variable RegExp_error : string -> string -> option js_exn.

(** The body loop never runs out of [body_fuel], and leaves no more lines
    than it was given. *)
Lemma parseSnippet_loop_total (fuel : nat) :
  forall lines script isCode,
    body_fuel lines <= fuel ->
    exists script' lines',
      parseSnippet_loop fuel lines script isCode = Some (script', lines') /\
      List.length lines' <= List.length lines.
Proof.
  induction fuel as [|fuel IH]; intros [|line lines] script isCode Hf.
  - exists script, []. split; [reflexivity|simpl; lia].
  - simpl in Hf. lia.
  - exists script, []. split; [reflexivity|simpl; lia].
  - cbn [body_fuel] in Hf.
    assert (Hplain : body_fuel lines <= fuel) by lia.
    assert (Hback : includes line CODE_DELIMITER = true ->
                    body_fuel (join CODE_DELIMITER (snd (split_CODE_DELIMITER_REGEX line))
                               :: lines) <= fuel).
    { intro Hi. pose proof (pushed_back_shorter _ Hi). cbn [body_fuel]. lia. }
    destruct isCode.
    + destruct (includes line CODE_DELIMITER) eqn:Hi.
      * rewrite (loop_code_delimiter _ _ _ _ Hi).
        destruct (IH _ (push script [trim (fst (split_CODE_DELIMITER_REGEX line));
                                     stmt_push_block; stmt_push_blockResult])
                     false (Hback eq_refl)) as (s' & l' & E & L).
        exists s', l'. split; [exact E|]. simpl in *. lia.
      * rewrite (loop_code_plain _ _ _ _ Hi).
        destruct (IH lines (push script [trim line]) true Hplain) as (s' & l' & E & L).
        exists s', l'. split; [exact E|]. simpl. lia.
    + destruct (startsWith line "endsnippet") eqn:He.
      * rewrite (loop_endsnippet _ _ _ _ He).
        exists script, lines. split; [reflexivity|]. simpl. lia.
      * destruct (includes line CODE_DELIMITER) eqn:Hi.
        -- rewrite (loop_text_delimiter _ _ _ _ He Hi).
           destruct (IH _ (push script [stmt_push_text (fst (split_CODE_DELIMITER_REGEX line));
                                        stmt_reset_rv])
                        true (Hback eq_refl)) as (s' & l' & E & L).
           exists s', l'. split; [exact E|]. simpl in *. lia.
        -- rewrite loop_text_plain by (unfold plain_text; now rewrite He, Hi).
           destruct (IH lines (push script [stmt_push_text line; stmt_push_newline])
                        false Hplain) as (s' & l' & E & L).
           exists s', l'. split; [exact E|]. simpl. lia.
Qed.

(** Where no line ends the body, the loop stops only at the end of the
    lines. *)
Lemma parseSnippet_loop_unterminated (fuel : nat) :
  forall lines script isCode script' lines',
    Forall (fun l => unterminated_line l = true) lines ->
    parseSnippet_loop fuel lines script isCode = Some (script', lines') ->
    lines' = [].
Proof.
  induction fuel as [|fuel IH]; intros [|line lines] script isCode script' lines' Hall H.
  - now injection H as _ <-.
  - discriminate H.
  - now injection H as _ <-.
  - inversion Hall as [|? ? Hline Hrest]; subst.
    unfold unterminated_line in Hline. apply andb_prop in Hline as [He Hn].
    apply negb_true_iff in He, Hn.
    assert (Hback : includes line CODE_DELIMITER = true ->
                    Forall (fun l => unterminated_line l = true)
                           (join CODE_DELIMITER (snd (split_CODE_DELIMITER_REGEX line))
                            :: lines)).
    { intro Hi. constructor; [|exact Hrest]. now apply pushed_back_unterminated. }
    destruct isCode.
    + destruct (includes line CODE_DELIMITER) eqn:Hi.
      * rewrite (loop_code_delimiter _ _ _ _ Hi) in H. eapply IH; [|exact H]. auto.
      * rewrite (loop_code_plain _ _ _ _ Hi) in H. eapply IH; [|exact H]. auto.
    + destruct (includes line CODE_DELIMITER) eqn:Hi.
      * rewrite (loop_text_delimiter _ _ _ _ He Hi) in H. eapply IH; [|exact H]. auto.
      * rewrite loop_text_plain in H by (unfold plain_text; now rewrite He, Hi).
        eapply IH; [|exact H]. auto.
Qed.

Lemma parseSnippet_total (headerLine : string) (lines : list string) :
  (exists e, parseSnippetHeader RegExp_error headerLine = Throw e /\
             parseSnippet RegExp_error headerLine lines = Some (Throw e)) \/
  (exists h script lines',
      parseSnippetHeader RegExp_error headerLine = Normal h /\
      parseSnippet_loop (body_fuel lines) lines script_prologue false
        = Some (script, lines') /\
      parseSnippet RegExp_error headerLine lines =
        Some (Normal ({| body := join nl (finish_script script);
                         contextFilter := None; header := h |}, lines')) /\
      List.length lines' <= List.length lines).
Proof.
  unfold parseSnippet.
  destruct (parseSnippetHeader RegExp_error headerLine) as [h|e].
  - right.
    destruct (parseSnippet_loop_total (body_fuel lines) lines script_prologue false
                (le_n _)) as (s' & l' & E & L).
    exists h, s', l'. rewrite E. auto.
  - left. exists e. auto.
Qed.

(** A failure of [parseSnippetHeader] is the header error, on a line the
    header pattern does not match, or comes from the [RegExp] constructor. *)
Lemma parseSnippetHeader_throws (line : string) (e : js_exn) :
  parseSnippetHeader RegExp_error line = Throw e ->
  (HEADER_REGEXP_exec line = None /\ e = ErrorObject "Error" "Invalid snippet header")
  \/ exists source, RegExp_error source "m" = Some e.
Proof.
  unfold parseSnippetHeader.
  destruct (HEADER_REGEXP_exec line) as [m|].
  - destruct (truthy (match1 m)); [|discriminate].
    destruct (RegExp_error _ "m") as [e'|] eqn:E; [|discriminate].
    intro H. injection H as <-. right. eauto.
  - intro H. injection H as <-. left. auto.
Qed.

Lemma keyword_is_no_directive (line : string) :
  startsWith line "snippet" = true ->
  startsWith line "#" = false /\ startsWith line "global" = false /\
  startsWith line "priority " = false /\ startsWith line "context " = false /\
  startsWith line "endsnippet" = false /\
  exists m, HEADER_REGEXP_exec line = Some m.
Proof.
  intro H. destruct (startsWith_inv _ _ H) as [t ->].
  repeat (split; [reflexivity|]).
  destruct (HEADER_REGEXP_exec ("snippet" ++ t)) as [m|] eqn:E; [eauto|].
  apply HEADER_REGEXP_matches in E. congruence.
Qed.

(** One iteration of the file loop on a snippet declaration. *)
Lemma parse_loop_declaration (fuel : nat) (st : parse_state) (headerLine : string)
      (lines : list string) :
  isCode st = false ->
  startsWith headerLine "snippet" = true ->
  parse_loop RegExp_error (S fuel) (headerLine :: lines) st =
  match parseSnippet RegExp_error headerLine lines with
  | None => None
  | Some (Throw e) => Some (Throw e)
  | Some (Normal (info, lines')) =>
      parse_loop RegExp_error fuel lines'
        {| snippetInfos :=
             (snippetInfos st ++
              [{| body := body info;
                  contextFilter := context st;
                  header := set_header_priority (header info) (pending_priority st) |}])%list;
           script := script st; isCode := false;
           pending_priority := Num 0; context := None |}
  end.
Proof.
  intros Hc Hk.
  destruct (keyword_is_no_directive _ Hk) as (H1 & H2 & H3 & H4 & _ & m & Hm).
  cbn [parse_loop]. rewrite Hc, H1, H2, H3, H4, Hm.
  destruct (parseSnippet RegExp_error headerLine lines) as [[[info lines']|e]|];
    try reflexivity.
Qed.

(** The file loop never runs out of one unit of fuel per line. *)
Lemma parse_loop_total (fuel : nat) :
  forall lines st,
    List.length lines <= fuel ->
    exists r, parse_loop RegExp_error fuel lines st = Some r.
Proof.
  induction fuel as [|fuel IH]; intros [|line lines] st Hf.
  - eexists; reflexivity.
  - simpl in Hf. lia.
  - eexists; reflexivity.
  - simpl in Hf. assert (Hl : List.length lines <= fuel) by lia.
    cbn [parse_loop].
    destruct (isCode st);
      repeat match goal with
             | |- context [if startsWith ?a ?b then _ else _] => destruct (startsWith a b)
             end; try (apply IH; exact Hl).
    destruct (HEADER_REGEXP_exec line) as [m|]; [|apply IH; exact Hl].
    destruct (parseSnippet_total line lines)
      as [(e & _ & ->)|(h & s & l' & _ & _ & -> & L)].
    + eexists; reflexivity.
    + apply IH. lia.
Qed.

(** What the file loop throws comes from the [RegExp] constructor. *)
Lemma parse_loop_throws (fuel : nat) :
  forall lines st e,
    parse_loop RegExp_error fuel lines st = Some (Throw e) ->
    exists source, RegExp_error source "m" = Some e.
Proof.
  induction fuel as [|fuel IH]; intros [|line lines] st e H; try discriminate H.
  cbn [parse_loop] in H.
  destruct (isCode st);
    repeat match type of H with
           | context [if startsWith ?a ?b then _ else _] => destruct (startsWith a b)
           end; try (eapply IH; exact H).
  destruct (HEADER_REGEXP_exec line) as [m|] eqn:Hm; [|eapply IH; exact H].
  destruct (parseSnippet_total line lines)
    as [(e' & He' & E)|(h & s & l' & _ & _ & E & _)]; rewrite E in H.
  - injection H as ->.
    destruct (parseSnippetHeader_throws _ _ He') as [[Hn _]|Hr]; [congruence|exact Hr].
  - eapply IH; exact H.
Qed.

(** Inside a [global] block that is never closed, every line goes to the
    preamble. *)
Lemma parse_loop_unterminated_global :
  forall lines fuel st,
    isCode st = true ->
    Forall (fun l => startsWith l "endglobal" = false) lines ->
    List.length lines <= fuel ->
    parse_loop RegExp_error fuel lines st =
    Some (Normal {| snippetInfos := snippetInfos st;
                    script := push (script st) lines;
                    isCode := true;
                    pending_priority := pending_priority st;
                    context := context st |}).
Proof.
  induction lines as [|line lines IH]; intros fuel st Hc Hall Hf.
  - destruct st; simpl in *; subst. unfold push. rewrite app_nil_r.
    now destruct fuel.
  - destruct fuel as [|fuel]; [simpl in Hf; lia|].
    inversion Hall as [|? ? Hline Hrest]; subst.
    cbn [parse_loop]. rewrite Hc, Hline.
    rewrite IH; [|reflexivity|exact Hrest|simpl in Hf; lia].
    cbn [snippetInfos script pending_priority context]. unfold push.
    now rewrite <- app_assoc.
Qed.

End Loops.

(** * Bodies of plain text lines *)

Section PlainBodies.

Variable RegExp_error : string -> string -> option js_exn.

Lemma body_fuel_length (lines : list string) : List.length lines <= body_fuel lines.
Proof. induction lines; simpl; lia. Qed.

Lemma parseSnippet_loop_fuel_irrelevant (fuel : nat) :
  forall lines script isCode r,
    parseSnippet_loop fuel lines script isCode = Some r ->
    forall fuel', fuel <= fuel' -> parseSnippet_loop fuel' lines script isCode = Some r.
Proof.
  induction fuel as [|fuel IH]; intros [|line lines] script isCode r H fuel' Hf;
    try discriminate H.
  - now destruct fuel'.
  - now destruct fuel'.
  - destruct fuel' as [|fuel']; [lia|].
    cbn [parseSnippet_loop] in *.
    destruct isCode.
    + destruct (negb (includes line CODE_DELIMITER)).
      * apply IH with (fuel' := fuel') in H; [exact H|lia].
      * destruct (split_CODE_DELIMITER_REGEX line).
        apply IH with (fuel' := fuel') in H; [exact H|lia].
    + destruct (startsWith line "endsnippet"); [exact H|].
      destruct (negb (includes line CODE_DELIMITER)).
      * apply IH with (fuel' := fuel') in H; [exact H|lia].
      * cbn [Bool.eqb] in *. destruct (split_CODE_DELIMITER_REGEX line).
        apply IH with (fuel' := fuel') in H; [exact H|lia].
Qed.

(** Plain text lines up to a terminator: two statements per line. *)
Lemma parseSnippet_loop_plain (B : list string) :
  forall fuel terminator R script,
    Forall (fun l => plain_text l = true) B ->
    startsWith terminator "endsnippet" = true ->
    List.length B < fuel ->
    parseSnippet_loop fuel (B ++ terminator :: R) script false =
    Some (push script (text_statements B), R).
Proof.
  induction B as [|line B IH]; intros fuel terminator R script HB Ht Hf.
  - destruct fuel as [|fuel]; [simpl in Hf; lia|].
    cbn [app]. rewrite (loop_endsnippet _ _ _ _ Ht).
    unfold push, text_statements. cbn [flat_map]. now rewrite app_nil_r.
  - destruct fuel as [|fuel]; [simpl in Hf; lia|].
    inversion HB as [|? ? Hl HB']; subst.
    cbn [app]. rewrite (loop_text_plain _ _ _ _ Hl).
    rewrite IH by (auto; simpl in Hf; lia).
    unfold push, text_statements. cbn [flat_map]. now rewrite <- app_assoc.
Qed.

(** Plain text lines up to the end of the file. *)
Lemma parseSnippet_loop_plain_eof (B : list string) :
  forall fuel script,
    Forall (fun l => plain_text l = true) B ->
    List.length B <= fuel ->
    parseSnippet_loop fuel B script false = Some (push script (text_statements B), []).
Proof.
  induction B as [|line B IH]; intros fuel script HB Hf.
  - unfold push, text_statements. cbn [flat_map]. rewrite app_nil_r. now destruct fuel.
  - destruct fuel as [|fuel]; [simpl in Hf; lia|].
    inversion HB as [|? ? Hl HB']; subst.
    rewrite (loop_text_plain _ _ _ _ Hl).
    rewrite IH by (auto; simpl in Hf; lia).
    unfold push, text_statements. cbn [flat_map]. now rewrite <- app_assoc.
Qed.

Lemma parseSnippet_plain (headerLine terminator : string) (h : IHSnippetHeader)
      (B R : list string) :
  parseSnippetHeader RegExp_error headerLine = Normal h ->
  Forall (fun l => plain_text l = true) B ->
  startsWith terminator "endsnippet" = true ->
  parseSnippet RegExp_error headerLine (B ++ terminator :: R) =
  Some (Normal ({| body := plain_body_source B; contextFilter := None; header := h |}, R)).
Proof.
  intros Hh HB Ht. unfold parseSnippet. rewrite Hh.
  rewrite (parseSnippet_loop_plain B _ terminator R script_prologue HB Ht); [reflexivity|].
  pose proof (body_fuel_length (B ++ terminator :: R)) as L.
  rewrite length_app in L. simpl in L. lia.
Qed.


End PlainBodies.

Lemma compile_total (RegExp_error : string -> string -> option js_exn) (content : string) :
  exists r, compile RegExp_error content = Some r.
Proof.
  unfold compile.
  destruct (parse_loop_total RegExp_error (List.length (split_lines content))
              (split_lines content) parse_init (le_n _)) as [[st|e] ->];
    eexists; reflexivity.
Qed.

(** * C3: header errors *)

(** C3, as the code has it.  The header pattern matches exactly the lines
    that start with [snippet], and [parseSnippetHeader] raises its header
    error exactly on the other lines.  [parse] hands it only lines the same
    pattern matches: a line without the keyword is skipped without error, and
    whatever the scan of a file throws was thrown by the [RegExp] constructor
    on a pattern trigger.  With a constructor that accepts every source the
    scan of every file ends normally. *)
Theorem header_error_never_reaches_parse
  (RegExp_error : string -> string -> option js_exn) :
  (forall line, HEADER_REGEXP_exec line = None <-> startsWith line "snippet" = false) /\
  (forall line,
     startsWith line "snippet" = false ->
     parseSnippetHeader RegExp_error line =
     Throw (ErrorObject "Error" "Invalid snippet header")) /\
  (forall fuel line lines st,
     isCode st = false ->
     startsWith line "snippet" = false ->
     startsWith line "#" = false -> startsWith line "global" = false ->
     startsWith line "priority " = false -> startsWith line "context " = false ->
     parse_loop RegExp_error (S fuel) (line :: lines) st =
     parse_loop RegExp_error fuel lines st) /\
  (forall content e,
     compile RegExp_error content = Some (Throw e) ->
     exists source, RegExp_error source "m" = Some e) /\
  ((forall source, RegExp_error source "m" = None) ->
   forall content, exists snippets wrappedScript,
     compile RegExp_error content = Some (Normal (snippets, wrappedScript))).
Proof.
  assert (Hthrow : forall content e,
             compile RegExp_error content = Some (Throw e) ->
             exists source, RegExp_error source "m" = Some e).
  { intros content e H. unfold compile in H.
    destruct (parse_loop RegExp_error _ _ _) as [[st|e']|] eqn:E; try discriminate H.
    injection H as ->. exact (parse_loop_throws _ _ _ _ _ E). }
  repeat split.
  - apply HEADER_REGEXP_matches.
  - apply HEADER_REGEXP_matches.
  - intros line H. apply HEADER_REGEXP_matches in H.
    unfold parseSnippetHeader. now rewrite H.
  - intros fuel line lines st Hc Hk H1 H2 H3 H4.
    apply HEADER_REGEXP_matches in Hk.
    cbn [parse_loop]. now rewrite Hc, H1, H2, H3, H4, Hk.
  - exact Hthrow.
  - intros Hok content.
    destruct (compile_total RegExp_error content) as [[[snippets wrapped]|e] Hr].
    + eauto.
    + destruct (Hthrow _ _ Hr) as [source Hs]. rewrite Hok in Hs. discriminate Hs.
Qed.

Lemma header_error_never_reaches_parse_witness :
  parseSnippetHeader RegExp_accepts "snipet foo" =
    Throw (ErrorObject "Error" "Invalid snippet header") /\
  parse_loop RegExp_accepts 1 ["snipet foo"] parse_init =
    parse_loop RegExp_accepts 0 [] parse_init /\
  exists snippets wrappedScript,
    compile RegExp_accepts ("snippet `abc " ++ dq ++ "desc" ++ dq) =
    Some (Normal (snippets, wrappedScript)).
Proof.
  destruct (header_error_never_reaches_parse RegExp_accepts)
    as (_ & Hheader & Hskip & _ & Hnormal).
  split; [|split].
  - apply Hheader. reflexivity.
  - apply Hskip; reflexivity.
  - apply Hnormal. reflexivity.
Defined.

(** C3 as the specification words it fails.  The header made of the
    keyword and a quoted description is not rejected: the quoted word is read as a literal trigger; and a
    pattern whose closing backtick is missing is read as a literal trigger
    too.  Both files compile to one snippet. *)
Lemma malformed_headers_compile :
  (exists m snippet,
     parse unit RegExp_accepts no_module (Reference.reference_engine unit)
           ("snippet " ++ dq ++ "desc" ++ dq ++ nl ++ "text" ++ nl ++ "endsnippet")
     = Some m /\
     m [] = (Normal [snippet], []) /\
     snippet_header snippet =
       {| trigger := TriggerString (dq ++ "desc" ++ dq); description := EmptyString;
          flags := EmptyString; priority := Some (Num 0) |}) /\
  (exists m snippet,
     parse unit RegExp_accepts no_module (Reference.reference_engine unit)
           ("snippet `abc " ++ dq ++ "desc" ++ dq ++ nl ++ "text" ++ nl ++ "endsnippet")
     = Some m /\
     m [] = (Normal [snippet], []) /\
     snippet_header snippet =
       {| trigger := TriggerString "`abc"; description := "desc";
          flags := EmptyString; priority := Some (Num 0) |}).
Proof.
  split; eexists; eexists; (split; [reflexivity|]); split;
    [vm_compute; reflexivity | reflexivity | vm_compute; reflexivity | reflexivity].
Qed.

(** * Priority and context directives: an example *)

(** The file of the claim, through the whole scan: priority and context go
    to the second snippet only. *)
Example priority_and_context_example :
  exists snippets wrappedScript,
    compile RegExp_accepts
      ("snippet a" ++ nl ++ "one" ++ nl ++ "endsnippet" ++ nl ++
       "priority 5" ++ nl ++ "context x > 0" ++ nl ++
       "snippet b" ++ nl ++ "two" ++ nl ++ "endsnippet" ++ nl ++
       "snippet c" ++ nl ++ "three" ++ nl ++ "endsnippet")
    = Some (Normal (snippets, wrappedScript)) /\
    map (fun info => priority (header info)) snippets
      = [Some (Num 0); Some (Num 5); Some (Num 0)] /\
    map contextFilter snippets = [None; Some "x > 0"; None].
Proof. eexists. eexists. split; [vm_compute; reflexivity|]. split; reflexivity. Qed.

(** * C9: the module resolver *)

(** C9.  [safeRequire] always completes normally.  Where [require] throws,
    it returns [null] and writes one warning that names the module; where
    [require] returns a module, it returns that module and writes nothing. *)
Theorem safeRequire_never_throws
  (JsValue : Type) (require : string -> completion JsValue)
  (moduleName : string) (out : console) :
  exists v out',
    safeRequire JsValue require moduleName out = (Normal v, out') /\
    (forall e, require moduleName = Throw e ->
       v = None /\
       out' = (out ++ [console_warn ("[HSnips] Could not require module '"
                                      ++ moduleName ++ "':") e])%list) /\
    (forall module, require moduleName = Normal module -> v = Some module /\ out' = out).
Proof.
  unfold safeRequire, try_catch.
  destruct (require moduleName) as [module|e]; cbn.
  - exists (Some module), out. repeat split; intros; congruence.
  - eexists None, _. split; [reflexivity|]. split.
    + intros e' H. injection H as <-. auto.
    + intros module H. discriminate H.
Qed.

Lemma safeRequire_never_throws_witness :
  safeRequire unit no_module "left-pad" [] =
  (Normal None,
   [console_warn "[HSnips] Could not require module 'left-pad':"
                 (ErrorObject "Error" "Cannot find module 'left-pad'")]).
Proof.
  destruct (safeRequire_never_throws unit no_module "left-pad" [])
    as (v & out' & E & Hthrow & _).
  destruct (Hthrow _ eq_refl) as [-> ->]. exact E.
Defined.

(** * C8: failures of the execution *)

(** C8.  When the execution of the assembled unit throws, be it in
    [new Function] or in the call, [parse] writes the failure to the console
    and throws an [Error] whose message is [Failed to parse snippet code: ]
    followed by the text of the failure, which is preceded by an explanation
    when it mentions a redeclaration, a property of undefined, or a name that
    is not defined (tested in that order).  No snippet list is returned. *)
Theorem execution_failure_aborts
  (JsValue : Type) (RegExp_error : string -> string -> option js_exn)
  (require : string -> completion JsValue)
  (new_Function :
     string -> completion ((string -> M (option JsValue)) ->
                           M (list (IHSnippetParseResult JsValue))))
  (content wrappedScript : string) (snippets : list IHSnippetInfo)
  (e : js_exn) (out out' : console) :
  compile RegExp_error content = Some (Normal (snippets, wrappedScript)) ->
  execution JsValue require new_Function wrappedScript out = (Throw e, out') ->
  let t := error_text e in
  (exists m,
     parse JsValue RegExp_error require new_Function content = Some m /\
     m out =
     (Throw (ErrorObject "Error" ("Failed to parse snippet code: " ++ enrich t)),
      (out' ++ [console_error "[HSnips] Error executing snippet code:" e])%list)) /\
  (includes t "has already been declared" = true ->
   enrich t = redeclaration_hint ++ "Original error: " ++ t) /\
  (includes t "has already been declared" = false ->
   includes t "Cannot read properties of undefined" = true ->
   enrich t = (if includes t "document" then document_hint else undefined_property_hint)
              ++ "Original error: " ++ t) /\
  (includes t "has already been declared" = false ->
   includes t "Cannot read properties of undefined" = false ->
   includes t "is not defined" = true ->
   enrich t = undefined_variable_hint ++ "Original error: " ++ t) /\
  (includes t "has already been declared" = false ->
   includes t "Cannot read properties of undefined" = false ->
   includes t "is not defined" = false ->
   enrich t = t).
Proof.
  intros Hc He t. split; [|unfold enrich; repeat split].
  - unfold parse. rewrite Hc. eexists. split; [reflexivity|].
    unfold bind, execute, try_catch. rewrite He. reflexivity.
  - intros ->. reflexivity.
  - intros -> ->. now destruct (includes t "document").
  - intros -> -> ->. reflexivity.
  - intros -> -> ->. reflexivity.
Qed.

Lemma execution_failure_aborts_witness :
  exists m,
    parse unit RegExp_accepts no_module
          (fun _ => Throw (ErrorObject "SyntaxError"
                             "Identifier 'x' has already been declared"))
          ("global" ++ nl ++ "let x = 1;" ++ nl ++ "let x = 2;" ++ nl ++ "endglobal" ++ nl
           ++ "snippet foo" ++ nl ++ "bar" ++ nl ++ "endsnippet") = Some m /\
    fst (m []) =
    Throw (ErrorObject "Error"
             ("Failed to parse snippet code: " ++ redeclaration_hint
              ++ "Original error: Identifier 'x' has already been declared")).
Proof.
  destruct (compile_total RegExp_accepts
              ("global" ++ nl ++ "let x = 1;" ++ nl ++ "let x = 2;" ++ nl ++ "endglobal" ++ nl
               ++ "snippet foo" ++ nl ++ "bar" ++ nl ++ "endsnippet")) as [r Hr].
  assert (exists snippets wrapped, r = Normal (snippets, wrapped)) as (snippets & wrapped & ->).
  { vm_compute in Hr. injection Hr as <-. eauto. }
  destruct (execution_failure_aborts unit RegExp_accepts no_module
              (fun _ => Throw (ErrorObject "SyntaxError"
                                 "Identifier 'x' has already been declared"))
              _ wrapped snippets
              (ErrorObject "SyntaxError" "Identifier 'x' has already been declared")
              [] [] Hr eq_refl) as ((m & Hm & Hout) & Hredeclared & _).
  exists m. split; [exact Hm|]. rewrite Hout. cbn [fst].
  rewrite (Hredeclared eq_refl). reflexivity.
Defined.

(** * Files run by an engine that agrees with the reference semantics *)

Section Agreement.

Variable JsValue : Type.
Variable RegExp_error : string -> string -> option js_exn.
Variable require : string -> completion JsValue.
Variable new_Function :
  string -> completion ((string -> M (option JsValue)) ->
                        M (list (IHSnippetParseResult JsValue))).

Lemma reference_engine_agrees :
  Reference.agrees JsValue (Reference.reference_engine JsValue).
Proof.
  intros wrappedScript closures H. unfold Reference.reference_engine. rewrite H.
  eexists. split; [reflexivity|]. reflexivity.
Qed.

Lemma parse_with_agreeing_engine (content wrappedScript : string)
      (snippets : list IHSnippetInfo) (closures : list Reference.closure) :
  Reference.agrees JsValue new_Function ->
  compile RegExp_error content = Some (Normal (snippets, wrappedScript)) ->
  Reference.eval_unit wrappedScript = Some closures ->
  exists m,
    parse JsValue RegExp_error require new_Function content = Some m /\
    forall out,
      m out =
      (build_snippets JsValue snippets 0 (map (Reference.as_result JsValue) closures), out).
Proof.
  intros Hagree Hc Hu. destruct (Hagree _ _ Hu) as (f & Hf & Hcall).
  unfold parse. rewrite Hc. eexists. split; [reflexivity|].
  intro out. unfold bind, execute, try_catch, execution. rewrite Hf, Hcall.
  now destruct (build_snippets _ _ _ _).
Qed.

End Agreement.

(** * C1: the end-to-end example *)

(** C1, as the code has it.  With an engine that agrees with the reference
    semantics, the three-line file of the specification compiles to one
    snippet with trigger [foo] and description [Foo], whose generator returns,
    for any arguments, the segments [hello ], block 0, [ world] and one
    block result, the empty text: the block [1+1] does not assign [rv], so
    the accumulator still holds the empty text.  The same file with the block
    [rv = 1+1] gives the one block result [2]. *)
Theorem end_to_end_example
  (JsValue : Type) (RegExp_error : string -> string -> option js_exn)
  (require : string -> completion JsValue)
  (new_Function :
     string -> completion ((string -> M (option JsValue)) ->
                           M (list (IHSnippetParseResult JsValue)))) :
  Reference.agrees JsValue new_Function ->
  (exists m snippet,
     parse JsValue RegExp_error require new_Function
           foo_file = Some m /\
     (forall out, m out = (Normal [snippet], out)) /\
     snippet_header snippet =
       {| trigger := TriggerString "foo"; description := "Foo";
          flags := EmptyString; priority := Some (Num 0) |} /\
     forall args,
       snippet_generator snippet args =
       Normal ([Text "hello "; Block 0; Text " world"], [EmptyString])) /\
  (exists m snippet,
     parse JsValue RegExp_error require new_Function
           foo_file_assigning = Some m /\
     (forall out, m out = (Normal [snippet], out)) /\
     forall args,
       snippet_generator snippet args =
       Normal ([Text "hello "; Block 0; Text " world"], ["2"])).
Proof.
  intro Hagree. split.
  - edestruct (parse_with_agreeing_engine JsValue RegExp_error require new_Function
                 foo_file) as (m & Hm & Hout);
      [exact Hagree | vm_compute; reflexivity | vm_compute; reflexivity |].
    eexists m, _. split; [exact Hm|]. split; [exact Hout|]. split; reflexivity.
  - edestruct (parse_with_agreeing_engine JsValue RegExp_error require new_Function
                 foo_file_assigning) as (m & Hm & Hout);
      [exact Hagree | vm_compute; reflexivity | vm_compute; reflexivity |].
    eexists m, _. split; [exact Hm|]. split; [exact Hout|]. reflexivity.
Qed.

Lemma end_to_end_example_witness :
  exists m snippet,
    parse unit RegExp_accepts no_module (Reference.reference_engine unit) foo_file = Some m /\
    m [] = (Normal [snippet], []) /\
    snippet_generator snippet [tt; tt; tt; tt; tt] =
    Normal ([Text "hello "; Block 0; Text " world"], [EmptyString]).
Proof.
  destruct (end_to_end_example unit RegExp_accepts no_module
              (Reference.reference_engine unit) (reference_engine_agrees unit))
    as ((m & snippet & Hm & Hout & _ & Hgen) & _).
  exists m, snippet. split; [exact Hm|]. split; [apply Hout|apply Hgen].
Defined.

(** C1 as the specification words it fails: the block results of the
    example are not the one text [2]. *)
Lemma expression_block_result_is_not_its_value :
  ~ (exists m snippet,
       parse unit RegExp_accepts no_module (Reference.reference_engine unit) foo_file
       = Some m /\
       m [] = (Normal [snippet], []) /\
       snippet_generator snippet [] =
       Normal ([Text "hello "; Block 0; Text " world"], ["2"])).
Proof.
  intros (m & snippet & Hm & Hout & Hgen).
  vm_compute in Hm. injection Hm as <-.
  vm_compute in Hout. injection Hout as <-.
  vm_compute in Hgen. discriminate Hgen.
Qed.

(** * C2: the statement removed at the end of a body *)

(** C2, at a failing input.  For a snippet without a body the statement that
    [parseSnippet] removes is not a newline append but the declaration of
    [_blockResults]; the generator then throws a [ReferenceError] at its
    [return] instead of returning segments. *)
Theorem empty_body_loses_declaration :
  parseSnippet RegExp_accepts "snippet foo" ["endsnippet"] =
  Some (Normal ({| body := join nl [stmt_open; stmt_let_rv; stmt_let_result;
                                    stmt_return; stmt_close];
                   contextFilter := None;
                   header := {| trigger := TriggerString "foo"; description := EmptyString;
                                flags := EmptyString; priority := None |} |}, [])) /\
  run_file empty_body_file =
  Some [Throw (ErrorObject "ReferenceError" "_blockResults is not defined")].
Proof. split; vm_compute; reflexivity. Qed.

(** * C6: block references and block results *)

(** C6, at a failing input.  Where the terminator follows the closing
    delimiter of the last block on the same line, the statement that
    [parseSnippet] removes is the one that records the block result: the
    segments refer to a block that the block results do not hold.  With the
    terminator on its own line the two blocks give two block results. *)
Theorem glued_terminator_loses_block_result :
  run_file glued_terminator_file = Some [Normal ([Text EmptyString; Block 0], [])] /\
  run_file two_blocks_glued_file =
  Some [Normal ([Text EmptyString; Block 0; Text " and "; Block 1], ["1"])] /\
  run_file two_blocks_file =
  Some [Normal ([Text EmptyString; Block 0; Text " and "; Block 1; Text EmptyString],
                ["1"; "2"])].
Proof. repeat split; vm_compute; reflexivity. Qed.

(** * Bodies of plain text lines, compiled and run *)

Section RoundTrip.

Lemma all_chars_append (f : ascii -> bool) (a b : string) :
  all_chars f (a ++ b) = all_chars f a && all_chars f b.
Proof. induction a as [|c a IH]; simpl; [reflexivity|]. now rewrite IH, andb_assoc. Qed.

Lemma join_cons_nonempty (sep x : string) (ys : list string) :
  ys <> [] -> join sep (x :: ys) = x ++ sep ++ join sep ys.
Proof. destruct ys; [congruence|reflexivity]. Qed.

Lemma join_app (sep : string) (xs ys : list string) :
  xs <> [] -> ys <> [] ->
  join sep (xs ++ ys) = join sep xs ++ sep ++ join sep ys.
Proof.
  induction xs as [|x xs IH]; intros Hx Hy; [congruence|].
  destruct xs as [|x' xs].
  - cbn [app]. now rewrite join_cons_nonempty.
  - change ((x :: x' :: xs) ++ ys)%list with (x :: ((x' :: xs) ++ ys))%list.
    rewrite join_cons_nonempty by discriminate.
    rewrite IH by (auto; discriminate).
    rewrite (join_cons_nonempty sep x (x' :: xs)) by discriminate.
    now rewrite !append_assoc.
Qed.

(** The lines of a text are the lines it was joined from. *)
Lemma source_lines_single (a : string) :
  no_line_terminator a = true -> Reference.source_lines a = [a].
Proof.
  induction a as [|c a IH]; [reflexivity|].
  unfold no_line_terminator. cbn [all_chars]. intro H.
  apply andb_prop in H as [Hc Ha]. apply negb_true_iff, orb_false_elim in Hc as [Hc _].
  cbn [Reference.source_lines]. rewrite Hc, (IH Ha). reflexivity.
Qed.

Lemma source_lines_cons (a b : string) :
  no_line_terminator a = true ->
  Reference.source_lines (a ++ nl ++ b) = a :: Reference.source_lines b.
Proof.
  induction a as [|c a IH]; [reflexivity|].
  unfold no_line_terminator. cbn [all_chars]. intro H.
  apply andb_prop in H as [Hc Ha]. apply negb_true_iff, orb_false_elim in Hc as [Hc _].
  change (String c a ++ nl ++ b) with (String c (a ++ nl ++ b)).
  cbn [Reference.source_lines]. rewrite Hc, (IH Ha). reflexivity.
Qed.

Lemma source_lines_join (ls : list string) :
  ls <> [] ->
  Forall (fun l => no_line_terminator l = true) ls ->
  Reference.source_lines (join nl ls) = ls.
Proof.
  induction ls as [|l ls IH]; intros Hne Hall; [congruence|].
  inversion Hall as [|? ? Hl Hls]; subst.
  destruct ls as [|l' ls].
  - now apply source_lines_single.
  - rewrite join_cons_nonempty by discriminate.
    rewrite source_lines_cons by exact Hl.
    now rewrite IH by (auto; discriminate).
Qed.

(** The escaping of a text is undone by the reading of the string literal. *)
Lemma escapeString_cons (c : ascii) (s : string) :
  escapeString (String c s) =
  (if Ascii.eqb c "092" then bs ++ bs
   else if Ascii.eqb c "034" then bs ++ dq
   else String c EmptyString) ++ escapeString s.
Proof.
  unfold escapeString. cbn [replace_all].
  destruct (Ascii.eqb_spec c "092") as [->|Hb]; [reflexivity|].
  cbn [replace_all].
  destruct (Ascii.eqb_spec c "034") as [->|Hq]; reflexivity.
Qed.

Lemma string_literal_escapeString (s after : string) :
  no_line_terminator s = true ->
  Reference.string_literal (escapeString s ++ dq ++ after) = Some (s, after).
Proof.
  induction s as [|c s IH]; [reflexivity|].
  unfold no_line_terminator. cbn [all_chars]. intro H.
  apply andb_prop in H as [Hc Hs]. apply negb_true_iff in Hc.
  specialize (IH Hs). rewrite escapeString_cons.
  destruct (Ascii.eqb_spec c "092") as [->|Hb].
  - change ((bs ++ bs) ++ escapeString s) with (String "092" (String "092" (escapeString s))).
    change (String "092" (String "092" (escapeString s)) ++ dq ++ after)
      with (String "092" (String "092" (escapeString s ++ dq ++ after))).
    cbn [Reference.string_literal]. rewrite IH. reflexivity.
  - destruct (Ascii.eqb_spec c "034") as [->|Hq].
    + change ((bs ++ dq) ++ escapeString s) with (String "092" (String "034" (escapeString s))).
      change (String "092" (String "034" (escapeString s)) ++ dq ++ after)
        with (String "092" (String "034" (escapeString s ++ dq ++ after))).
      cbn [Reference.string_literal]. rewrite IH. reflexivity.
    + change ((String c EmptyString ++ escapeString s) ++ dq ++ after)
        with (String c (escapeString s ++ dq ++ after)).
      cbn [Reference.string_literal].
      apply Ascii.eqb_neq in Hb, Hq. rewrite Hq, Hc, Hb, IH. reflexivity.
Qed.

Lemma escapeString_no_line_terminator (s : string) :
  no_line_terminator s = true -> no_line_terminator (escapeString s) = true.
Proof.
  induction s as [|c s IH]; [reflexivity|].
  unfold no_line_terminator in *. cbn [all_chars]. intro H.
  apply andb_prop in H as [Hc Hs]. rewrite escapeString_cons, all_chars_append, (IH Hs).
  rewrite andb_true_r.
  destruct (Ascii.eqb c "092"); [reflexivity|].
  destruct (Ascii.eqb c "034"); [reflexivity|].
  cbn [all_chars]. now rewrite Hc.
Qed.

Lemma stmt_push_text_no_line_terminator (s : string) :
  no_line_terminator s = true -> no_line_terminator (stmt_push_text s) = true.
Proof.
  intro H. unfold stmt_push_text, no_line_terminator.
  rewrite !all_chars_append. fold (no_line_terminator (escapeString s)).
  now rewrite (escapeString_no_line_terminator _ H).
Qed.

Lemma classify_push_text (s : string) :
  no_line_terminator s = true ->
  String.eqb (stmt_push_text s) stmt_return = false /\
  Reference.classify (stmt_push_text s) = Some (Reference.SPushText s).
Proof.
  intro H. split; [reflexivity|].
  unfold Reference.classify.
  change (String.eqb (stmt_push_text s) stmt_push_block) with false.
  change (String.eqb (stmt_push_text s) stmt_push_blockResult) with false.
  change (String.eqb (stmt_push_text s) EmptyString) with false.
  cbv iota.
  change (stmt_push_text s)
    with (("_result.push(" ++ dq) ++ (escapeString s ++ dq ++ ");")).
  rewrite strip_prefix_append, (string_literal_escapeString _ _ H). reflexivity.
Qed.

End RoundTrip.

Section RoundTripRun.

Lemma read_statements (lines : list string) :
  forall stmts f read rest,
    Forall2 reads_as lines stmts ->
    Reference.read_unit (Reference.Statements f) read (lines ++ rest) =
    Reference.read_unit
      (Reference.Statements
         {| Reference.declares_blockResults := Reference.declares_blockResults f;
            Reference.statements := (Reference.statements f ++ stmts)%list |})
      read rest.
Proof.
  induction lines as [|line lines IH]; intros stmts f read rest H;
    inversion H as [|? s ? stmts' (_ & Hr & Hc) Hrest]; subst.
  - destruct f. cbn [app Reference.statements Reference.declares_blockResults].
    now rewrite app_nil_r.
  - cbn [app Reference.read_unit]. rewrite Hr, Hc.
    rewrite (IH stmts' _ read rest Hrest).
    cbn [Reference.statements Reference.declares_blockResults].
    now rewrite <- app_assoc.
Qed.

Lemma run_push_texts (texts : list string) :
  forall rest sc,
    Reference.run (map Reference.SPushText texts ++ rest) sc =
    Reference.run rest
      {| Reference.rv := Reference.rv sc;
         Reference._result := (Reference._result sc ++ map Text texts)%list;
         Reference._blockResults := Reference._blockResults sc |}.
Proof.
  induction texts as [|t texts IH]; intros rest sc.
  - destruct sc. cbn [map app Reference.rv Reference._result Reference._blockResults].
    now rewrite app_nil_r.
  - cbn [map app Reference.run Reference.exec]. rewrite IH.
    cbn [Reference.rv Reference._result Reference._blockResults].
    now rewrite <- app_assoc.
Qed.

Lemma text_statements_snoc (B : list string) (last : string) :
  pop (text_statements (B ++ [last])) =
  (text_statements B ++ [stmt_push_text last])%list.
Proof.
  unfold pop, text_statements. rewrite flat_map_app. cbn [flat_map app].
  change [stmt_push_text last; stmt_push_newline]
    with ([stmt_push_text last] ++ [stmt_push_newline])%list.
  rewrite app_assoc. apply removelast_last.
Qed.

Lemma pushed_texts_read (B : list string) (last : string) :
  Forall (fun l => no_line_terminator l = true) B ->
  no_line_terminator last = true ->
  Forall2 reads_as (text_statements B ++ [stmt_push_text last])
          (map Reference.SPushText (pushed_texts B last)).
Proof.
  intros HB Hlast. unfold pushed_texts. rewrite map_app.
  apply Forall2_app.
  - induction HB as [|l B Hl HB IH]; [constructor|].
    cbn [text_statements flat_map app map].
    constructor; [|constructor; [|exact IH]].
    + split; [now apply stmt_push_text_no_line_terminator|now apply classify_push_text].
    + repeat split.
  - constructor; [|constructor].
    split; [now apply stmt_push_text_no_line_terminator|now apply classify_push_text].
Qed.

Lemma reads_as_no_line_terminator (lines : list string) (stmts : list Reference.stmt) :
  Forall2 reads_as lines stmts -> Forall (fun l => no_line_terminator l = true) lines.
Proof. induction 1 as [|? ? ? ? (H & _)]; constructor; auto. Qed.

(** Evaluating a generator source is reading its lines. *)
Lemma eval_generator_lines (lines : list string) :
  Forall (fun l => no_line_terminator l = true) lines ->
  Reference.eval_generator
    (join nl (script_prologue ++ lines ++ [stmt_return; stmt_close])) =
  match Reference.read_unit
          (Reference.Statements {| Reference.declares_blockResults := true;
                                   Reference.statements := [] |})
          [] (lines ++ [stmt_return; stmt_close; "},"; "]"]) with
  | Some [f] => Some f
  | _ => None
  end.
Proof.
  intro H. unfold Reference.eval_generator, Reference.eval_unit.
  set (L := (lines ++ [stmt_return; stmt_close])%list).
  assert (E : join nl ["return ["; "{";
                       "generatorFunction: " ++ join nl (script_prologue ++ L); "},"; "]"]
              = join nl (["return ["; "{"; "generatorFunction: " ++ stmt_open;
                          stmt_let_rv; stmt_let_result; stmt_let_blockResults]
                         ++ L ++ ["},"; "]"])).
  { assert (HL : L <> []) by (unfold L; destruct lines; discriminate).
    change (script_prologue ++ L)%list
      with ([stmt_open; stmt_let_rv; stmt_let_result] ++ (stmt_let_blockResults :: L))%list.
    rewrite (join_app nl [stmt_open; stmt_let_rv; stmt_let_result]) by discriminate.
    change (stmt_let_blockResults :: L) with ([stmt_let_blockResults] ++ L)%list.
    rewrite (join_app nl [stmt_let_blockResults] L) by (auto; discriminate).
    rewrite (join_app nl _ (L ++ ["},"; "]"])) by (try discriminate; destruct L; discriminate).
    rewrite (join_app nl L) by (auto; discriminate).
    cbn [join String.concat]. rewrite !append_assoc. reflexivity. }
  rewrite E. clear E.
  rewrite source_lines_join.
  - cbn [app]. unfold L. rewrite <- app_assoc. reflexivity.
  - discriminate.
  - repeat (constructor; [reflexivity|]).
    unfold L. rewrite !Forall_app. repeat split.
    + exact H.
    + repeat constructor.
    + repeat constructor.
Qed.

(** A body whose lines after the prologue read as [stmts] evaluates to the
    closure of [stmts]. *)
Lemma eval_generator_statements (lines : list string) (stmts : list Reference.stmt) :
  Forall2 reads_as lines stmts ->
  Reference.eval_generator
    (join nl (script_prologue ++ lines ++ [stmt_return; stmt_close])) =
  Some {| Reference.declares_blockResults := true; Reference.statements := stmts |}.
Proof.
  intro H. rewrite (eval_generator_lines _ (reads_as_no_line_terminator _ _ H)).
  now rewrite (read_statements _ _ _ _ _ H).
Qed.

Lemma materialize_texts (show : nat -> string) (texts : list string) :
  materialize show (map Text texts) = String.concat EmptyString texts.
Proof.
  induction texts as [|t texts IH]; [reflexivity|].
  cbn [map materialize]. rewrite IH.
  destruct texts; [now rewrite append_empty_r|reflexivity].
Qed.

Lemma concat_pushed_texts (B : list string) (last : string) :
  String.concat EmptyString (pushed_texts B last) = join nl (B ++ [last]).
Proof.
  unfold pushed_texts. induction B as [|l B IH]; [reflexivity|].
  cbn [flat_map app].
  rewrite (join_cons_nonempty nl l (B ++ [last])) by (destruct B; discriminate).
  rewrite <- IH.
  destruct (flat_map (fun l0 => [l0; nl]) B ++ [last])%list eqn:E;
    [destruct B; discriminate|].
  reflexivity.
Qed.

End RoundTripRun.

(** The round trip of text bodies.  A body of one or more
    plain text lines, none holding a raw line terminator, compiles to a
    generator that returns text segments only, no block result, and whose
    segments put together are the lines joined by line feeds: the body text
    without its last line feed. *)
Theorem text_body_round_trip
  (RegExp_error : string -> string -> option js_exn)
  (headerLine terminator : string) (h : IHSnippetHeader) (B R : list string) :
  parseSnippetHeader RegExp_error headerLine = Normal h ->
  B <> [] ->
  Forall (fun l => plain_text l = true) B ->
  Forall (fun l => no_line_terminator l = true) B ->
  startsWith terminator "endsnippet" = true ->
  exists info f segments,
    parseSnippet RegExp_error headerLine (B ++ terminator :: R) = Some (Normal (info, R)) /\
    Reference.eval_generator (body info) = Some f /\
    Reference.call f = Normal (segments, []) /\
    forallb is_text segments = true /\
    forall show, materialize show segments = join nl B.
Proof.
  intros Hh Hne Hplain Hnl Ht.
  destruct (exists_last Hne) as (B' & last & ->).
  apply Forall_app in Hnl as [HB' Hlast]. inversion Hlast as [|? ? Hl _]; subst.
  pose proof (pushed_texts_read B' last HB' Hl) as Hread.
  eexists _, _, (map Text (pushed_texts B' last)).
  split; [exact (parseSnippet_plain _ _ _ _ _ _ Hh Hplain Ht)|].
  cbn [body]. unfold plain_body_source, finish_script.
  assert (E : push (push (pop (push script_prologue (text_statements (B' ++ [last]))))
                         [stmt_return]) [stmt_close]
              = (script_prologue ++ (text_statements B' ++ [stmt_push_text last])
                 ++ [stmt_return; stmt_close])%list).
  { unfold push, pop. rewrite removelast_app.
    - fold (pop (text_statements (B' ++ [last]))). rewrite text_statements_snoc.
      now rewrite <- !app_assoc.
    - unfold text_statements. rewrite flat_map_app. cbn [flat_map].
      destruct (flat_map _ B'); discriminate. }
  rewrite E. split; [exact (eval_generator_statements _ _ Hread)|].
  split; [|split].
  - unfold Reference.call. cbn [Reference.statements Reference.declares_blockResults].
    rewrite <- (app_nil_r (map Reference.SPushText _)), run_push_texts. reflexivity.
  - clear. induction (pushed_texts B' last); [reflexivity|assumption].
  - intro show. now rewrite materialize_texts, concat_pushed_texts.
Qed.

Lemma text_body_round_trip_witness :
  exists info f segments,
    parseSnippet RegExp_accepts "snippet sig" ["Kind regards,"; "  J. \ " ++ dq ++ "Doe" ++ dq;
                                               "endsnippet"; "snippet next"]
    = Some (Normal (info, ["snippet next"])) /\
    Reference.eval_generator (body info) = Some f /\
    Reference.call f = Normal (segments, []) /\
    forall show,
      materialize show segments = "Kind regards," ++ nl ++ "  J. \ " ++ dq ++ "Doe" ++ dq.
Proof.
  destruct (text_body_round_trip RegExp_accepts "snippet sig" "endsnippet"
              {| trigger := TriggerString "sig"; description := EmptyString;
                 flags := EmptyString; priority := None |}
              ["Kind regards,"; "  J. \ " ++ dq ++ "Doe" ++ dq] ["snippet next"]
              eq_refl)
    as (info & f & segments & Hp & He & Hc & _ & Hm);
    [discriminate | repeat constructor | repeat constructor | reflexivity |].
  exists info, f, segments. repeat split; assumption.
Defined.

(** * Block references and block results *)

Section Pieces.

Lemma startsWith_append_l (a b p : string) :
  startsWith a p = true -> startsWith (a ++ b) p = true.
Proof.
  intro H. destruct (startsWith_inv _ _ H) as [t ->].
  rewrite append_assoc. apply startsWith_append.
Qed.

Lemma includes_append_l (a b p : string) :
  includes a p = true -> includes (a ++ b) p = true.
Proof.
  induction a as [|c a IH]; intro H.
  - apply startsWith_includes. change (EmptyString ++ b) with b.
    cbn [includes] in H. destruct (startsWith EmptyString p) eqn:E; [|discriminate].
    destruct p; [reflexivity|discriminate E].
  - cbn [includes] in H. destruct (startsWith (String c a) p) eqn:E.
    + apply startsWith_includes. now apply startsWith_append_l.
    + change (String c a ++ b) with (String c (a ++ b)). apply includes_cons. auto.
Qed.

Lemma trimStart_suffix (s : string) : exists w, s = w ++ trimStart s.
Proof.
  induction s as [|c s [w IH]]; [now exists EmptyString|].
  cbn [trimStart]. destruct (isWhiteSpace c).
  - exists (String c w). simpl. now rewrite <- IH.
  - now exists EmptyString.
Qed.

Lemma trimEnd_prefix (s : string) : exists w, s = trimEnd s ++ w.
Proof.
  induction s as [|c s [w IH]]; [now exists EmptyString|].
  cbn [trimEnd]. destruct (trimEnd s) as [|d t].
  - destruct (isWhiteSpace c).
    + now exists (String c s).
    + exists s. reflexivity.
  - exists w. simpl. simpl in IH. now rewrite <- IH.
Qed.

Lemma trim_inside (s : string) : exists before after, s = before ++ trim s ++ after.
Proof.
  destruct (trimStart_suffix s) as [before Hb].
  destruct (trimEnd_prefix (trimStart s)) as [after Ha].
  exists before, after. unfold trim. now rewrite <- Ha.
Qed.

(** What holds of no part of a line holds of no part of its pieces. *)
Lemma inside_includes (before s after p : string) :
  includes s p = true -> includes (before ++ s ++ after) p = true.
Proof. intro H. now apply includes_append_r, includes_append_l. Qed.

Lemma inside_all_chars (f : ascii -> bool) (before s after : string) :
  all_chars f (before ++ s ++ after) = true -> all_chars f s = true.
Proof.
  rewrite !all_chars_append. intro H.
  apply andb_prop in H as [_ H]. now apply andb_prop in H as [H _].
Qed.

Lemma regular_line_inv (line : string) :
  regular_line line = true ->
  no_line_terminator line = true /\ no_block_word line /\
  includes line (CODE_DELIMITER ++ "endsnippet") = false.
Proof.
  unfold regular_line, no_block_word. intro H.
  apply andb_prop in H as [H H3]. apply andb_prop in H as [H1 H2].
  apply negb_true_iff in H2, H3. auto.
Qed.

Lemma piece_no_block_word (before s after : string) :
  no_block_word (before ++ s ++ after) -> no_block_word s.
Proof.
  unfold no_block_word. intro H.
  destruct (includes s "_blockResults") eqn:E; [|reflexivity].
  apply (inside_includes before _ after) in E. congruence.
Qed.

(** A script line that does not mention [_blockResults] is none of the
    statements that do. *)
Lemma no_block_word_statement (s : string) :
  no_block_word s -> is_block_statement s = false.
Proof.
  unfold no_block_word, is_block_statement. intro H.
  destruct (String.eqb_spec s stmt_push_block) as [->|_]; [discriminate H|].
  destruct (String.eqb_spec s stmt_push_blockResult) as [->|_]; [discriminate H|].
  destruct (String.eqb_spec s stmt_return) as [->|_]; [discriminate H|].
  reflexivity.
Qed.

Lemma trim_piece (line : string) :
  no_line_terminator line = true -> no_block_word line ->
  no_line_terminator (trim line) = true /\ is_block_statement (trim line) = false.
Proof.
  intros H1 H2. destruct (trim_inside line) as (before & after & E).
  rewrite E in H1, H2. split.
  - exact (inside_all_chars _ _ _ _ H1).
  - exact (no_block_word_statement _ (piece_no_block_word _ _ _ H2)).
Qed.

Lemma first_piece (line : string) :
  includes line CODE_DELIMITER = true ->
  no_line_terminator line = true -> no_block_word line ->
  no_line_terminator (fst (split_CODE_DELIMITER_REGEX line)) = true /\
  no_block_word (fst (split_CODE_DELIMITER_REGEX line)).
Proof.
  intros Hi H1 H2. pose proof (split_decompose _ Hi) as E.
  rewrite E in H1, H2. split.
  - exact (inside_all_chars _ EmptyString _ _ H1).
  - exact (piece_no_block_word EmptyString _ _ H2).
Qed.

Lemma pushed_back_regular (line : string) :
  includes line CODE_DELIMITER = true ->
  regular_line line = true ->
  regular_line (join CODE_DELIMITER (snd (split_CODE_DELIMITER_REGEX line))) = true /\
  startsWith (join CODE_DELIMITER (snd (split_CODE_DELIMITER_REGEX line))) "endsnippet"
  = false.
Proof.
  intros Hi Hr. destruct (regular_line_inv _ Hr) as (H1 & H2 & H3).
  pose proof (pushed_back_unterminated _ Hi H3) as U.
  pose proof (split_decompose _ Hi) as E.
  set (h := fst (split_CODE_DELIMITER_REGEX line)) in *.
  set (r := join CODE_DELIMITER (snd (split_CODE_DELIMITER_REGEX line))) in *.
  unfold unterminated_line in U. apply andb_prop in U as [U1 U2].
  apply negb_true_iff in U1. split; [|exact U1].
  unfold regular_line. rewrite U2, andb_true_r. rewrite E in H1, H2.
  assert (A1 : no_line_terminator r = true).
  { unfold no_line_terminator in *. rewrite !all_chars_append in H1.
    apply andb_prop in H1 as [_ H1]. now apply andb_prop in H1 as [_ H1]. }
  assert (A2 : includes r "_blockResults" = false).
  { destruct (includes r "_blockResults") eqn:I; [|reflexivity].
    apply (includes_append_r (h ++ CODE_DELIMITER)) in I.
    rewrite append_assoc in I. unfold no_block_word in H2. congruence. }
  now rewrite A1, A2.
Qed.

Lemma push_text_statement (text : string) :
  is_block_statement (stmt_push_text text) = false.
Proof. reflexivity. Qed.

End Pieces.

Section BlockInvariant.

Lemma last_app_nonempty (A : Type) (a b : list A) (d : A) :
  b <> [] -> last (a ++ b) d = last b d.
Proof.
  intro Hb. induction a as [|x a IH]; [reflexivity|].
  cbn [app]. destruct (a ++ b)%list eqn:E.
  - apply app_eq_nil in E as [_ E]. contradiction.
  - exact IH.
Qed.

Lemma last_two (A : Type) (l : list A) (a b d : A) : last (l ++ [a; b]) d = b.
Proof.
  change [a; b] with ([a] ++ [b])%list. rewrite app_assoc. apply last_last.
Qed.

Lemma last_three (A : Type) (l : list A) (a b c d : A) : last (l ++ [a; b; c]) d = c.
Proof.
  change [a; b; c] with ([a; b] ++ [c])%list. rewrite app_assoc. apply last_last.
Qed.

(** The lines the body loop emits are paired, and the loop does not stop
    right after the statements of a closed block. *)
Lemma loop_emits_paired (fuel : nat) :
  forall lines script isCode script' lines',
    Forall (fun l => regular_line l = true) lines ->
    (last script EmptyString = stmt_push_blockResult ->
     isCode = false /\
     exists l ls, lines = l :: ls /\ startsWith l "endsnippet" = false) ->
    parseSnippet_loop fuel lines script isCode = Some (script', lines') ->
    exists emitted,
      script' = (script ++ emitted)%list /\
      paired emitted /\
      Forall (fun l => no_line_terminator l = true) emitted /\
      last script' EmptyString <> stmt_push_blockResult.
Proof.
  induction fuel as [|fuel IH]; intros [|line lines] script isCode script' lines' Hall Hpend H;
    try discriminate H.
  1, 2: injection H as <- <-; exists []; rewrite app_nil_r;
    repeat split; [constructor|constructor|];
    intro E; destruct (Hpend E) as (_ & l & ls & Hl & _); discriminate Hl.
  inversion Hall as [|? ? Hline Hrest]; subst.
  destruct (regular_line_inv _ Hline) as (H1 & H2 & H3).
  destruct isCode.
  - destruct (includes line CODE_DELIMITER) eqn:Hi.
    + rewrite (loop_code_delimiter _ _ _ _ Hi) in H.
      destruct (pushed_back_regular _ Hi Hline) as [Hr Hs].
      destruct (first_piece _ Hi H1 H2) as [F1 F2].
      destruct (trim_piece _ F1 F2) as [T1 T2].
      apply IH in H as (E & -> & HP & HN & HL).
      * eexists (_ :: _ :: _ :: E). unfold push. rewrite <- app_assoc.
        split; [reflexivity|]. split; [|split].
        -- apply paired_other; [exact T2|]. now apply paired_block.
        -- repeat (constructor; [first [exact T1|reflexivity]|]). exact HN.
        -- unfold push in HL. now rewrite <- app_assoc in HL.
      * now constructor.
      * intros _. split; [reflexivity|]. eauto.
    + rewrite (loop_code_plain _ _ _ _ Hi) in H.
      destruct (trim_piece _ H1 H2) as [T1 T2].
      apply IH in H as (E & -> & HP & HN & HL).
      * eexists (_ :: E). unfold push. rewrite <- app_assoc.
        split; [reflexivity|]. split; [|split].
        -- now apply paired_other.
        -- now constructor.
        -- unfold push in HL. now rewrite <- app_assoc in HL.
      * exact Hrest.
      * unfold push. rewrite last_last. intro E.
        rewrite E in T2. discriminate T2.
  - destruct (startsWith line "endsnippet") eqn:He.
    + rewrite (loop_endsnippet _ _ _ _ He) in H. injection H as <- <-.
      exists []. rewrite app_nil_r. repeat split; [constructor|constructor|].
      intro E. destruct (Hpend E) as (_ & l & ls & Hl & Hs).
      injection Hl as <- <-. congruence.
    + destruct (includes line CODE_DELIMITER) eqn:Hi.
      * rewrite (loop_text_delimiter _ _ _ _ He Hi) in H.
        destruct (pushed_back_regular _ Hi Hline) as [Hr Hs].
        destruct (first_piece _ Hi H1 H2) as [F1 F2].
        apply IH in H as (E & -> & HP & HN & HL).
        -- eexists (_ :: _ :: E). unfold push. rewrite <- app_assoc.
           split; [reflexivity|]. split; [|split].
           ++ apply paired_other; [apply push_text_statement|].
              apply paired_other; [reflexivity|exact HP].
           ++ constructor; [now apply stmt_push_text_no_line_terminator|].
              constructor; [reflexivity|exact HN].
           ++ unfold push in HL. now rewrite <- app_assoc in HL.
        -- now constructor.
        -- unfold push. rewrite last_two. discriminate.
      * rewrite loop_text_plain in H by (unfold plain_text; now rewrite He, Hi).
        apply IH in H as (E & -> & HP & HN & HL).
        -- eexists (_ :: _ :: E). unfold push. rewrite <- app_assoc.
           split; [reflexivity|]. split; [|split].
           ++ apply paired_other; [apply push_text_statement|].
              apply paired_other; [reflexivity|exact HP].
           ++ constructor; [now apply stmt_push_text_no_line_terminator|].
              constructor; [reflexivity|exact HN].
           ++ unfold push in HL. now rewrite <- app_assoc in HL.
        -- exact Hrest.
        -- unfold push. rewrite last_two. discriminate.
Qed.

Lemma paired_removelast (lines : list string) :
  paired lines ->
  last lines EmptyString <> stmt_push_blockResult ->
  paired (removelast lines).
Proof.
  induction 1 as [|rest HP IH|line rest Hline HP IH]; intro Hlast.
  - constructor.
  - destruct rest as [|x rest]; [now contradiction Hlast|].
    change (removelast (stmt_push_block :: stmt_push_blockResult :: x :: rest))
      with (stmt_push_block :: stmt_push_blockResult :: removelast (x :: rest)).
    apply paired_block, IH. exact Hlast.
  - destruct rest as [|x rest]; [constructor|].
    change (removelast (line :: x :: rest)) with (line :: removelast (x :: rest)).
    apply paired_other; [exact Hline|]. apply IH. exact Hlast.
Qed.

Lemma paired_not_return (lines : list string) :
  paired lines -> Forall (fun l => String.eqb l stmt_return = false) lines.
Proof.
  induction 1 as [|rest HP IH|line rest Hline HP IH];
    repeat (constructor; [try reflexivity|]); auto.
  unfold is_block_statement in Hline. now apply orb_false_elim in Hline as [_ Hline].
Qed.

Lemma Forall_removelast (A : Type) (P : A -> Prop) (l : list A) :
  Forall P l -> Forall P (removelast l).
Proof.
  induction 1 as [|x l Hx Hl IH]; [constructor|].
  destruct l; [constructor|]. now constructor.
Qed.

(** Reading a body gives one statement per line. *)
Lemma read_statements_inv (lines : list string) :
  forall f read rest r,
    Forall (fun l => String.eqb l stmt_return = false) lines ->
    Reference.read_unit (Reference.Statements f) read (lines ++ rest) = Some r ->
    exists stmts,
      Forall2 (fun l s => Reference.classify l = Some s) lines stmts /\
      Reference.read_unit
        (Reference.Statements
           {| Reference.declares_blockResults := Reference.declares_blockResults f;
              Reference.statements := (Reference.statements f ++ stmts)%list |})
        read rest = Some r.
Proof.
  induction lines as [|line lines IH]; intros f read rest r Hall H.
  - exists []. split; [constructor|]. destruct f.
    cbn [Reference.statements Reference.declares_blockResults]. now rewrite app_nil_r.
  - inversion Hall as [|? ? Hline Hrest]; subst.
    cbn [app Reference.read_unit] in H. rewrite Hline in H.
    destruct (Reference.classify line) as [s|] eqn:Hc; [|discriminate H].
    apply IH in H as (stmts & HF & H); [|exact Hrest].
    exists (s :: stmts). split; [now constructor|].
    cbn [Reference.statements Reference.declares_blockResults] in H.
    now rewrite <- app_assoc in H.
Qed.

Lemma classify_other (line : string) (s : Reference.stmt) :
  is_block_statement line = false ->
  Reference.classify line = Some s ->
  s <> Reference.SPushBlock /\ s <> Reference.SPushBlockResult.
Proof.
  unfold is_block_statement, Reference.classify. intro H.
  apply orb_false_elim in H as [H _]. apply orb_false_elim in H as [-> ->].
  destruct (String.eqb line EmptyString); [intro E; injection E as <-; split; discriminate|].
  destruct (strip_prefix _ line) as [r|].
  - destruct (Reference.string_literal r) as [[text after]|]; [|discriminate].
    destruct (String.eqb after ");"); [|discriminate].
    intro E; injection E as <-; split; discriminate.
  - destruct (strip_prefix "rv = " _) as [e|].
    + destruct (Reference.constant e); [|discriminate].
      intro E; injection E as <-; split; discriminate.
    + destruct (Reference.constant _); [|discriminate].
      intro E; injection E as <-; split; discriminate.
Qed.

Lemma paired_classify (lines : list string) :
  paired lines ->
  forall stmts,
    Forall2 (fun l s => Reference.classify l = Some s) lines stmts ->
    paired_stmts stmts.
Proof.
  induction 1 as [|rest HP IH|line rest Hline HP IH]; intros stmts HF.
  - inversion HF. constructor.
  - inversion HF as [|? s1 ? stmts1 H1 HF1]; subst.
    inversion HF1 as [|? s2 ? stmts2 H2 HF2]; subst.
    vm_compute in H1, H2. injection H1 as <-. injection H2 as <-.
    apply paired_stmts_block. auto.
  - inversion HF as [|? s ? stmts' Hs HF']; subst.
    destruct (classify_other _ _ Hline Hs).
    apply paired_stmts_other; auto.
Qed.

Lemma block_references_app (a b : list segment) :
  block_references (a ++ b) = (block_references a ++ block_references b)%list.
Proof.
  induction a as [|[t|n] a IH]; cbn [app block_references]; [reflexivity|exact IH|].
  now rewrite IH.
Qed.

(** Paired statements keep the block references in step with the block
    results. *)
Lemma run_paired (stmts : list Reference.stmt) :
  paired_stmts stmts ->
  forall sc results segments results',
    Reference._blockResults sc = Some results ->
    block_references (Reference._result sc) = seq 0 (List.length results) ->
    Reference.run stmts sc = Normal (segments, results') ->
    block_references segments = seq 0 (List.length results').
Proof.
  induction 1 as [|rest HP IH|s rest Hs1 Hs2 HP IH];
    intros sc results segments results' Hb Hinv Hrun.
  - cbn [Reference.run] in Hrun. rewrite Hb in Hrun. now injection Hrun as <- <-.
  - cbn [Reference.run Reference.exec] in Hrun. rewrite Hb in Hrun.
    cbn [Reference.run Reference.exec
         Reference._blockResults Reference._result Reference.rv] in Hrun.
    eapply IH; [| |exact Hrun]; cbn [Reference._blockResults Reference._result].
    + reflexivity.
    + rewrite block_references_app, Hinv, length_app. cbn [block_references List.length].
      rewrite Nat.add_1_r, seq_S. reflexivity.
  - cbn [Reference.run] in Hrun.
    destruct s as [text| | |v|]; try contradiction; cbn [Reference.exec] in Hrun;
      (eapply IH; [| |exact Hrun]; cbn [Reference._blockResults Reference._result];
       [exact Hb|]); try exact Hinv.
    rewrite block_references_app, Hinv. cbn [block_references]. apply app_nil_r.
Qed.

End BlockInvariant.

(** Block references and block results.  For a body
    whose lines hold no raw line terminator, do not mention [_blockResults]
    and never have [endsnippet] right after a delimiter, whenever the
    compiled generator is in the evaluated fragment and returns, the block
    references of its segments are 0, 1, ... in order, one for each block
    result. *)
Theorem block_references_match_results
  (RegExp_error : string -> string -> option js_exn)
  (headerLine : string) (lines lines' : list string) (info : IHSnippetInfo)
  (f : Reference.closure) (segments : list segment) (results : list string) :
  Forall (fun l => regular_line l = true) lines ->
  parseSnippet RegExp_error headerLine lines = Some (Normal (info, lines')) ->
  Reference.eval_generator (body info) = Some f ->
  Reference.call f = Normal (segments, results) ->
  block_references segments = seq 0 (List.length results).
Proof.
  intros Hall Hparse Heval Hcall.
  destruct (parseSnippet_total RegExp_error headerLine lines)
    as [(e & _ & E)|(h & script' & l' & _ & Hloop & E & _)]; rewrite E in Hparse;
    [discriminate Hparse|].
  injection Hparse as <- <-. cbn [body] in Heval.
  apply loop_emits_paired in Hloop as (emitted & -> & HP & HN & HL);
    [|exact Hall|discriminate].
  destruct emitted as [|x emitted].
  - vm_compute in Heval. injection Heval as <-. discriminate Hcall.
  - assert (Hlast : last (x :: emitted) EmptyString <> stmt_push_blockResult).
    { intro E'. apply HL. rewrite last_app_nonempty by discriminate. exact E'. }
    unfold finish_script, push, pop in Heval.
    rewrite removelast_app in Heval by discriminate.
    rewrite <- !app_assoc in Heval. cbn [app] in Heval.
    change (stmt_open :: stmt_let_rv :: stmt_let_result :: stmt_let_blockResults
            :: (removelast (x :: emitted) ++ [stmt_return; stmt_close])%list)
      with (script_prologue ++ removelast (x :: emitted) ++ [stmt_return; stmt_close])%list
      in Heval.
    pose proof (paired_removelast _ HP Hlast) as HP'.
    rewrite eval_generator_lines in Heval by (now apply Forall_removelast).
    destruct (Reference.read_unit _ _ _) as [[|f' [|? ?]]|] eqn:R; try discriminate Heval.
    injection Heval as ->.
    change (removelast (x :: emitted) ++ [stmt_return; stmt_close; "},"; "]"])%list
      with (removelast (x :: emitted) ++ [stmt_return; stmt_close; "},"; "]"])%list in R.
    apply read_statements_inv in R as (stmts & HF & R); [|now apply paired_not_return].
    cbn in R. injection R as <-.
    unfold Reference.call in Hcall.
    cbn [Reference.statements Reference.declares_blockResults] in Hcall.
    eapply (run_paired _ (paired_classify _ HP' _ HF)); [| |exact Hcall]; reflexivity.
Qed.

Lemma block_references_match_results_witness :
  exists info f segments,
    parseSnippet RegExp_accepts "snippet foo" ["``rv = 1`` and ``rv = 2``"; "endsnippet"]
    = Some (Normal (info, [])) /\
    Reference.eval_generator (body info) = Some f /\
    Reference.call f = Normal (segments, ["1"; "2"]) /\
    block_references segments = [0; 1].
Proof.
  eexists _, _, _.
  split; [vm_compute; reflexivity|].
  split; [vm_compute; reflexivity|].
  split; [vm_compute; reflexivity|].
  eapply (block_references_match_results RegExp_accepts "snippet foo"
            ["``rv = 1`` and ``rv = 2``"; "endsnippet"] [] _ _ _ ["1"; "2"]).
  - repeat constructor.
  - vm_compute; reflexivity.
  - vm_compute; reflexivity.
  - vm_compute; reflexivity.
Defined.

(** * Headers: what every parsed header satisfies, and literal headers *)

Section HeaderFacts.

Lemma span_all (f : ascii -> bool) (s : string) :
  all_chars f s = true -> span f s = (s, EmptyString).
Proof.
  induction s as [|c s IH]; [reflexivity|]. cbn [all_chars span]. intro H.
  apply andb_prop in H as [Hc Hs]. now rewrite Hc, (IH Hs).
Qed.

Lemma span_fst_all (f : ascii -> bool) (s : string) :
  all_chars f (fst (span f s)) = true.
Proof.
  induction s as [|c s IH]; [reflexivity|]. cbn [span].
  destruct (f c) eqn:Hc; [|reflexivity].
  destruct (span f s) as [a b]. cbn [fst all_chars] in *. now rewrite Hc.
Qed.

Lemma delimited_inv (is_d : ascii -> bool) (s x r : string) :
  delimited is_d s = Some (x, r) ->
  x <> EmptyString /\ all_chars (fun c => negb (is_d c)) x = true.
Proof.
  unfold delimited. destruct s as [|c s]; [discriminate|].
  destruct (is_d c); [|discriminate].
  pose proof (span_fst_all (fun c => negb (is_d c)) s) as A.
  destruct (span _ s) as [[|a inner] [|b after]]; try discriminate.
  intro H. injection H as <- <-. split; [discriminate|exact A].
Qed.

Lemma delimited_intro (is_d : ascii -> bool) (d : ascii) (x r : string) :
  is_d d = true -> x <> EmptyString ->
  all_chars (fun c => negb (is_d c)) x = true ->
  delimited is_d (String d (x ++ String d r)) = Some (x, r).
Proof.
  intros Hd Hx Hall. unfold delimited. rewrite Hd.
  rewrite span_append by (auto; now rewrite Hd).
  destruct x; [contradiction|reflexivity].
Qed.

Lemma delimited_other (is_d : ascii -> bool) (s : string) :
  (forall c r, s = String c r -> is_d c = false) -> delimited is_d s = None.
Proof.
  intro H. destruct s as [|c r]; [reflexivity|].
  unfold delimited. now rewrite (H c r eq_refl).
Qed.

Lemma anchored_no_backtick (p : string) :
  all_chars (fun c => negb (is_backtick c)) p = true ->
  all_chars (fun c => negb (is_backtick c)) (anchored p) = true.
Proof.
  intro H. unfold anchored. destruct (negb (endsWith p "$")); [|exact H].
  rewrite all_chars_append, H. reflexivity.
Qed.

End HeaderFacts.

(** Every header that [parseSnippetHeader] returns has flags drawn from the
    letters A, M, i, w, b, a description without a double quote, no priority
    yet, and a trigger that is either absent, or a non-empty literal without
    white space, or a pattern compiled with the flag [m] whose source ends
    with [$] and holds no backtick; and the line starts with [snippet]. *)
Theorem parsed_header_well_formed
  (RegExp_error : string -> string -> option js_exn) (line : string) (h : IHSnippetHeader) :
  parseSnippetHeader RegExp_error line = Normal h ->
  startsWith line "snippet" = true /\
  all_chars is_flag (flags h) = true /\
  all_chars (fun c => negb (is_dquote c)) (description h) = true /\
  priority h = None /\
  well_formed_trigger (trigger h).
Proof.
  unfold parseSnippetHeader.
  destruct (HEADER_REGEXP_exec line) as [m|] eqn:Hm; [|discriminate].
  assert (Hk : startsWith line "snippet" = true).
  { destruct (startsWith line "snippet") eqn:K; [reflexivity|].
    apply HEADER_REGEXP_matches in K. congruence. }
  assert (Hgroups :
            all_chars is_flag (or_empty (match4 m)) = true /\
            all_chars (fun c => negb (is_dquote c)) (or_empty (match3 m)) = true /\
            (forall p, match1 m = Some p ->
                       p <> EmptyString /\
                       all_chars (fun c => negb (is_backtick c)) p = true) /\
            (forall s, match2 m = Some s ->
                       s <> EmptyString /\ all_chars is_nonspace s = true)).
  { unfold HEADER_REGEXP_exec in Hm.
    destruct (strip_prefix "snippet" line) as [s1|]; [|discriminate].
    set (s2 := match after_space s1 with Some r => r | None => s1 end) in *.
    assert (H12 : forall m1 m2 s3,
               match delimited is_backtick s2 with
               | Some (p, r) => (Some p, None, r)
               | None =>
                   match span (fun x => negb (isWhiteSpace x)) s2 with
                   | (String a w, r) => (None, Some (String a w), r)
                   | (EmptyString, _) => (None, None, s2)
                   end
               end = (m1, m2, s3) ->
               (forall p, m1 = Some p ->
                          p <> EmptyString /\
                          all_chars (fun c => negb (is_backtick c)) p = true) /\
               (forall s, m2 = Some s ->
                          s <> EmptyString /\ all_chars is_nonspace s = true)).
    { intros m1 m2 s3.
      destruct (delimited is_backtick s2) as [[p r]|] eqn:D.
      - intro E. injection E as <- <- <-. split; [|discriminate].
        intros p' E. injection E as <-. exact (delimited_inv _ _ _ _ D).
      - pose proof (span_fst_all (fun x => negb (isWhiteSpace x)) s2) as A.
        destruct (span _ s2) as [[|a w] r]; intro E; injection E as <- <- <-;
          (split; [discriminate|]); [discriminate|].
        intros s E. injection E as <-. split; [discriminate|exact A]. }
    destruct (match delimited is_backtick s2 with
              | Some (p, r) => (Some p, None, r)
              | None => _
              end) as [[m1 m2] s3] eqn:E12.
    destruct (H12 _ _ _ eq_refl) as [G1 G2].
    assert (H3 : forall m3 s4,
               match after_space s3 with
               | Some q =>
                   match delimited is_dquote q with
                   | Some (d, r) => (Some d, r)
                   | None => (None, s3)
                   end
               | None => (None, s3)
               end = (m3, s4) ->
               all_chars (fun c => negb (is_dquote c)) (or_empty m3) = true).
    { intros m3 s4. destruct (after_space s3) as [q|].
      - destruct (delimited is_dquote q) as [[d r]|] eqn:D; intro E; injection E as <- <-.
        + exact (proj2 (delimited_inv _ _ _ _ D)).
        + reflexivity.
      - intro E. injection E as <- <-. reflexivity. }
    destruct (match after_space s3 with Some q => _ | None => _ end) as [m3 s4] eqn:E3.
    injection Hm as <-. cbn [match1 match2 match3 match4].
    split; [|split; [exact (H3 _ _ eq_refl)|split; assumption]].
    destruct (after_space s4) as [r|]; [apply span_fst_all|reflexivity]. }
  destruct Hgroups as (G4 & G3 & G1 & G2).
  destruct (match1 m) as [p|] eqn:M1.
  - destruct (G1 p eq_refl) as [Hne Hp].
    assert (T : truthy (Some p) = true) by (destruct p; [contradiction|reflexivity]).
    rewrite T. cbn [or_empty].
    destruct (RegExp_error (anchored p) "m"); [discriminate|].
    intro E. injection E as <-. cbn [flags description priority trigger well_formed_trigger].
    repeat split; auto using anchored_ends, anchored_no_backtick.
  - cbn [truthy]. intro E. injection E as <-.
    cbn [flags description priority trigger].
    repeat split; auto.
    destruct (match2 m) as [s|]; [exact (G2 s eq_refl)|exact I].
Qed.

Lemma parsed_header_well_formed_witness :
  well_formed_trigger (TriggerRegExp "([a-z]+)\.$" "m").
Proof.
  destruct (parsed_header_well_formed RegExp_accepts
              ("snippet `([a-z]+)\.` " ++ dq ++ "method call" ++ dq ++ " iA")
              {| trigger := TriggerRegExp "([a-z]+)\.$" "m"; description := "method call";
                 flags := "iA"; priority := None |} eq_refl)
    as (_ & _ & _ & _ & H).
  exact H.
Defined.

(** A header [snippet <trigger> "<description>" <flags>], with a trigger
    that has no white space and does not start with a backtick, a description
    without a double quote and flags from the alphabet, is parsed back into
    exactly these three parts; without description and flags they are
    empty. *)
Theorem literal_header_round_trip
  (RegExp_error : string -> string -> option js_exn) (t d f : string) :
  t <> EmptyString ->
  all_chars is_nonspace t = true ->
  startsWith t "`" = false ->
  d <> EmptyString ->
  all_chars (fun c => negb (is_dquote c)) d = true ->
  all_chars is_flag f = true ->
  parseSnippetHeader RegExp_error ("snippet " ++ t ++ " " ++ dq ++ d ++ dq ++ " " ++ f) =
  Normal {| trigger := TriggerString t; description := d; flags := f; priority := None |} /\
  parseSnippetHeader RegExp_error ("snippet " ++ t ++ " " ++ f) =
  Normal {| trigger := TriggerString t; description := EmptyString; flags := f;
            priority := None |} /\
  parseSnippetHeader RegExp_error ("snippet " ++ t) =
  Normal {| trigger := TriggerString t; description := EmptyString; flags := EmptyString;
            priority := None |}.
Proof.
  intros Ht Hns Hbt Hd Hdq Hf.
  assert (Hfirst : forall rest, delimited is_backtick (t ++ rest) = None).
  { intro rest. apply delimited_other. intros c r E.
    destruct t as [|c' t']; [contradiction|]. injection E as <- _.
    cbn [startsWith] in Hbt. rewrite andb_true_r in Hbt.
    unfold is_backtick. now rewrite Ascii.eqb_sym. }
  assert (Hspan : forall rest,
             span (fun x => negb (isWhiteSpace x)) (t ++ String " " rest)
             = (t, String " " rest)).
  { intro rest. now apply span_append. }
  assert (Hflags : fst (span is_flag f) = f) by now rewrite span_all.
  assert (Hfq : delimited is_dquote f = None).
  { apply delimited_other. intros c r ->. cbn [all_chars] in Hf.
    apply andb_prop in Hf as [Hc _]. unfold is_dquote.
    destruct (Ascii.eqb_spec c "034") as [->|]; [discriminate Hc|reflexivity]. }
  unfold parseSnippetHeader, HEADER_REGEXP_exec.
  split; [|split].
  - change ("snippet " ++ t ++ " " ++ dq ++ d ++ dq ++ " " ++ f)
      with ("snippet" ++ String " " (t ++ String " " (String "034" (d ++ String "034" (String " " f))))).
    rewrite strip_prefix_append. cbn [after_space]. change (Ascii.eqb " " " ") with true.
    cbv iota. rewrite Hfirst, Hspan.
    destruct t as [|c t']; [contradiction|]. cbv iota beta.
    cbn [after_space]. change (Ascii.eqb " " " ") with true. cbv iota.
    rewrite (delimited_intro is_dquote "034" d (String " " f) eq_refl Hd Hdq).
    cbv iota beta. cbn [after_space]. change (Ascii.eqb " " " ") with true. cbv iota.
    rewrite Hflags. reflexivity.
  - change ("snippet " ++ t ++ " " ++ f)
      with ("snippet" ++ String " " (t ++ String " " f)).
    rewrite strip_prefix_append. cbn [after_space]. change (Ascii.eqb " " " ") with true.
    cbv iota. rewrite Hfirst, Hspan.
    destruct t as [|c t']; [contradiction|]. cbv iota beta.
    cbn [after_space]. change (Ascii.eqb " " " ") with true. cbv iota.
    rewrite Hfq. cbv iota beta. cbn [after_space]. change (Ascii.eqb " " " ") with true.
    cbv iota. rewrite Hflags. reflexivity.
  - change ("snippet " ++ t) with ("snippet" ++ String " " t).
    rewrite strip_prefix_append. cbn [after_space]. change (Ascii.eqb " " " ") with true.
    cbv iota. rewrite <- (append_empty_r t) at 1 2. rewrite Hfirst.
    rewrite (append_empty_r t), (span_all (fun x => negb (isWhiteSpace x)) t Hns).
    destruct t as [|c t']; [contradiction|]. reflexivity.
Qed.

Lemma literal_header_round_trip_witness :
  parseSnippetHeader RegExp_accepts ("snippet fn " ++ dq ++ "function" ++ dq ++ " bA") =
  Normal {| trigger := TriggerString "fn"; description := "function"; flags := "bA";
            priority := None |}.
Proof.
  refine (proj1 (literal_header_round_trip RegExp_accepts "fn" "function" "bA"
                   _ _ _ _ _ _));
    first [discriminate | reflexivity].
Defined.

(** * Patterns the host rejects *)

(** A declaration whose pattern trigger the [RegExp] constructor rejects
    ends the scan of the file with the constructor's exception, whatever was
    parsed before it and whatever follows; [parse] then throws that same
    exception, unchanged, without running the engine and without writing to
    the console. *)
Theorem rejected_pattern_aborts_file
  (JsValue : Type) (RegExp_error : string -> string -> option js_exn)
  (require : string -> completion JsValue)
  (new_Function :
     string -> completion ((string -> M (option JsValue)) ->
                           M (list (IHSnippetParseResult JsValue)))) :
  (forall fuel st p rest lines e,
     isCode st = false ->
     p <> EmptyString ->
     all_chars (fun c => negb (is_backtick c)) p = true ->
     RegExp_error (anchored p) "m" = Some e ->
     parse_loop RegExp_error (S fuel) (("snippet `" ++ p ++ "`" ++ rest) :: lines) st
     = Some (Throw e)) /\
  (forall content e,
     compile RegExp_error content = Some (Throw e) ->
     exists m,
       parse JsValue RegExp_error require new_Function content = Some m /\
       forall out, m out = (Throw e, out)).
Proof.
  split.
  - intros fuel st p rest lines e Hc Hne Hp He.
    assert (Hk : startsWith ("snippet `" ++ p ++ "`" ++ rest) "snippet" = true)
      by reflexivity.
    rewrite (parse_loop_declaration _ _ _ _ _ Hc Hk).
    unfold parseSnippet, parseSnippetHeader.
    pose proof (header_pattern_group p rest Hne Hp) as G.
    destruct (HEADER_REGEXP_exec _) as [m|]; [|discriminate G].
    injection G as G. rewrite G.
    assert (T : truthy (Some p) = true) by (destruct p; [contradiction|reflexivity]).
    rewrite T. cbn [or_empty]. now rewrite He.
  - intros content e H. unfold parse. rewrite H. eexists. split; reflexivity.
Qed.

Lemma rejected_pattern_aborts_file_witness :
  exists m,
    parse unit RegExp_rejects_open_group no_module (Reference.reference_engine unit)
          ("snippet ok" ++ nl ++ "fine" ++ nl ++ "endsnippet" ++ nl
           ++ "snippet `(` A" ++ nl ++ "never scanned" ++ nl ++ "endsnippet") = Some m /\
    m [] = (Throw (ErrorObject "SyntaxError"
                     "Invalid regular expression: /($/: Unterminated group"), []).
Proof.
  destruct (proj2 (rejected_pattern_aborts_file unit RegExp_rejects_open_group no_module
                     (Reference.reference_engine unit))
              ("snippet ok" ++ nl ++ "fine" ++ nl ++ "endsnippet" ++ nl
               ++ "snippet `(` A" ++ nl ++ "never scanned" ++ nl ++ "endsnippet")
              (ErrorObject "SyntaxError"
                 "Invalid regular expression: /($/: Unterminated group"))
    as (m & Hm & Hout); [vm_compute; reflexivity|].
  exists m. split; [exact Hm|apply Hout].
Defined.

(** * The snippets built from the artifacts *)

Section BuildSnippets.

Variable JsValue : Type.

Lemma nth_error_skipn (A : Type) (l : list A) (i : nat) (x : A) :
  nth_error l i = Some x -> skipn i l = x :: skipn (S i) l.
Proof.
  revert i. induction l as [|a l IH]; intros [|i] H; try discriminate H.
  - injection H as <-. reflexivity.
  - cbn [nth_error] in H. cbn [skipn]. rewrite (IH i H). now destruct l.
Qed.

Lemma build_snippets_from (infos : list IHSnippetInfo) :
  forall i (generators : list (IHSnippetParseResult JsValue)),
    (List.length infos <= List.length (skipn i generators) ->
     build_snippets JsValue infos i generators =
     Normal (map (make_snippet JsValue) (combine infos (skipn i generators)))) /\
    (List.length (skipn i generators) < List.length infos ->
     build_snippets JsValue infos i generators =
     Throw (ErrorObject "TypeError"
              "Cannot read properties of undefined (reading 'generatorFunction')")).
Proof.
  induction infos as [|s infos IH]; intros i generators.
  - split; [reflexivity|]. cbn [List.length]. lia.
  - cbn [build_snippets].
    destruct (nth_error generators i) as [g|] eqn:N.
    + rewrite (nth_error_skipn _ _ _ _ N). cbn [List.length combine map].
      destruct (IH (S i) generators) as [Hok Hshort]. split; intro H.
      * rewrite Hok by lia. reflexivity.
      * rewrite Hshort by lia. reflexivity.
    + apply nth_error_None in N. split; [|reflexivity].
      rewrite length_skipn. cbn [List.length]. lia.
Qed.

End BuildSnippets.

(** [parse] pairs the parsed declarations with the artifacts of the engine
    by position: with at least as many artifacts as declarations it returns
    one snippet per declaration, in file order, each with the header of its
    declaration and the generator and context filter of the artifact of the
    same index, and ignores artifacts beyond; with fewer artifacts it throws
    a [TypeError]. *)
Theorem snippets_are_zipped_by_position
  (JsValue : Type) (infos : list IHSnippetInfo)
  (generators : list (IHSnippetParseResult JsValue)) :
  (List.length infos <= List.length generators ->
   build_snippets JsValue infos 0 generators =
   Normal (map (make_snippet JsValue) (combine infos generators)) /\
   map snippet_header (map (make_snippet JsValue) (combine infos generators))
   = map header infos) /\
  (List.length generators < List.length infos ->
   build_snippets JsValue infos 0 generators =
   Throw (ErrorObject "TypeError"
            "Cannot read properties of undefined (reading 'generatorFunction')")).
Proof.
  destruct (build_snippets_from JsValue infos 0 generators) as [Hok Hshort].
  cbn [skipn] in *. split; [|exact Hshort].
  intro H. split; [exact (Hok H)|].
  clear Hok Hshort. revert generators H.
  induction infos as [|s infos IH]; intros [|g generators] H; try reflexivity.
  - cbn [List.length] in H. lia.
  - cbn [combine map make_snippet snippet_header fst]. f_equal.
    apply IH. cbn [List.length] in H. lia.
Qed.

Lemma snippets_are_zipped_by_position_witness :
  build_snippets unit
    [{| body := "a"; contextFilter := None;
        header := {| trigger := TriggerString "a"; description := EmptyString;
                     flags := EmptyString; priority := Some (Num 0) |} |};
     {| body := "b"; contextFilter := None;
        header := {| trigger := TriggerString "b"; description := EmptyString;
                     flags := EmptyString; priority := Some (Num 0) |} |}]
    0 [{| result_contextFilter := None; generatorFunction := fun _ => Normal ([], []) |}]
  = Throw (ErrorObject "TypeError"
             "Cannot read properties of undefined (reading 'generatorFunction')").
Proof.
  apply (snippets_are_zipped_by_position unit). cbn [List.length]. lia.
Defined.

(** * The message of a failed execution *)

Lemma endsWith_refl (s : string) : endsWith s s = true.
Proof. destruct s; cbn [endsWith]; now rewrite String.eqb_refl. Qed.

(** The message [parse] throws when the execution fails always ends with the
    text of the failure: whatever explanation is put before it, the original
    text is kept whole. *)
Theorem failure_text_is_kept (error : js_exn) :
  endsWith ("Failed to parse snippet code: " ++ enrich (error_text error))
           (error_text error) = true.
Proof.
  set (t := error_text error). unfold enrich.
  repeat match goal with
         | |- context [if includes t ?p then _ else _] => destruct (includes t p)
         end;
    rewrite <- ?append_assoc; first [apply endsWith_append].
Qed.

(** * The lines the body compiler hands back *)

Lemma parseSnippet_loop_suffix (fuel : nat) :
  forall lines script isCode script' lines',
    parseSnippet_loop fuel lines script isCode = Some (script', lines') ->
    match lines with
    | [] => lines' = []
    | _ :: tail => exists consumed, tail = (consumed ++ lines')%list
    end.
Proof.
  induction fuel as [|fuel IH]; intros [|line lines] script isCode script' lines' H;
    try discriminate H; try (now injection H as _ <-).
  cbn [parseSnippet_loop] in H.
  assert (Hplain : forall s c,
             parseSnippet_loop fuel lines s c = Some (script', lines') ->
             exists consumed, lines = (consumed ++ lines')%list).
  { intros s c E. apply IH in E. destruct lines as [|l ls].
    - subst. now exists [].
    - destruct E as [consumed ->]. now exists (l :: consumed). }
  destruct isCode.
  - destruct (negb (includes line CODE_DELIMITER)); [eauto|].
    destruct (split_CODE_DELIMITER_REGEX line). exact (IH _ _ _ _ _ H).
  - destruct (startsWith line "endsnippet").
    + injection H as _ <-. now exists [].
    + destruct (negb (includes line CODE_DELIMITER)); [eauto|].
      cbn [Bool.eqb] in H. destruct (split_CODE_DELIMITER_REGEX line).
      exact (IH _ _ _ _ _ H).
Qed.

(** The lines [parseSnippet] leaves to its caller are a suffix of the lines
    it was given, unchanged and in order: what it pushes back while scanning
    never reaches the caller.  It consumes at least one line when there is
    one. *)
Theorem parseSnippet_leaves_suffix
  (RegExp_error : string -> string -> option js_exn)
  (headerLine : string) (lines lines' : list string) (info : IHSnippetInfo) :
  parseSnippet RegExp_error headerLine lines = Some (Normal (info, lines')) ->
  exists consumed,
    lines = (consumed ++ lines')%list /\ (lines <> [] -> consumed <> []).
Proof.
  unfold parseSnippet.
  destruct (parseSnippetHeader RegExp_error headerLine); [|discriminate].
  destruct (parseSnippet_loop _ _ _ _) as [[script' l']|] eqn:E; [|discriminate].
  intro H. injection H as _ <-.
  apply parseSnippet_loop_suffix in E. destruct lines as [|line tail].
  - subst. exists []. split; [reflexivity|congruence].
  - destruct E as [consumed ->]. exists (line :: consumed). split; [reflexivity|discriminate].
Qed.

Lemma parseSnippet_leaves_suffix_witness :
  exists consumed,
    ["x ``rv = 1"; "rv = 2`` y"; "endsnippet"; "snippet next"; "z"]
    = (consumed ++ ["snippet next"; "z"])%list.
Proof.
  destruct (parseSnippet_leaves_suffix RegExp_accepts "snippet foo"
              ["x ``rv = 1"; "rv = 2`` y"; "endsnippet"; "snippet next"; "z"]
              ["snippet next"; "z"]
              {| body := join nl (script_prologue ++
                                  [stmt_push_text "x "; stmt_reset_rv; "rv = 1"; "rv = 2";
                                   stmt_push_block; stmt_push_blockResult;
                                   stmt_push_text " y"; stmt_return; stmt_close]);
                 contextFilter := None;
                 header := {| trigger := TriggerString "foo"; description := EmptyString;
                              flags := EmptyString; priority := None |} |}
              eq_refl) as (consumed & H & _).
  exists consumed. exact H.
Defined.

(** * Line endings *)

Section LineEndings.

Lemma no_line_feed_cons (c : ascii) (s : string) :
  no_line_feed (String c s) = true ->
  Ascii.eqb c "010" = false /\ no_line_feed s = true.
Proof.
  unfold no_line_feed. cbn [all_chars]. intro H.
  apply andb_prop in H as [Hc Hs]. now apply negb_true_iff in Hc.
Qed.

Lemma split_lines_continue (c : ascii) (s l : string) (ls : list string) :
  Ascii.eqb c "010" = false ->
  (Ascii.eqb c "013" = true -> startsWith s nl = false) ->
  split_lines s = l :: ls ->
  split_lines (String c s) = String c l :: ls.
Proof.
  intros Hc Hcr Hs. cbn [split_lines]. rewrite Hc, Hs.
  destruct (Ascii.eqb c "013"); [|reflexivity].
  specialize (Hcr eq_refl). destruct s as [|d s']; [reflexivity|].
  cbn [startsWith nl] in Hcr. rewrite andb_true_r, Ascii.eqb_sym in Hcr.
  now rewrite Hcr.
Qed.

Lemma startsWith_nl_no_line_feed (a rest : string) :
  no_line_feed a = true -> a <> EmptyString -> startsWith (a ++ rest) nl = false.
Proof.
  intros H Hne. destruct a as [|c a]; [contradiction|].
  apply no_line_feed_cons in H as [Hc _].
  cbn [append startsWith nl]. now rewrite Ascii.eqb_sym, Hc.
Qed.

Lemma split_lines_crlf_cons (a b : string) :
  no_line_feed a = true ->
  split_lines (a ++ crlf ++ b) = a :: split_lines b.
Proof.
  induction a as [|c a IH]; intro H.
  - reflexivity.
  - destruct (no_line_feed_cons _ _ H) as [Hc Ha].
    change (String c a ++ crlf ++ b) with (String c (a ++ crlf ++ b)).
    apply split_lines_continue; [exact Hc| |exact (IH Ha)].
    intros _. destruct a as [|d a]; [reflexivity|].
    now apply startsWith_nl_no_line_feed.
Qed.

Lemma split_lines_lf_cons (a b : string) :
  no_line_feed a = true -> endsWith a cr = false ->
  split_lines (a ++ nl ++ b) = a :: split_lines b.
Proof.
  induction a as [|c a IH]; intros H He.
  - reflexivity.
  - destruct (no_line_feed_cons _ _ H) as [Hc Ha].
    change (String c a ++ nl ++ b) with (String c (a ++ nl ++ b)).
    apply split_lines_continue; [exact Hc| |exact (IH Ha (endsWith_tail _ _ _ He))].
    intros Hcr. destruct a as [|d a].
    + apply Ascii.eqb_eq in Hcr. subst c. discriminate He.
    + now apply startsWith_nl_no_line_feed.
Qed.

Lemma split_lines_single (a : string) :
  no_line_feed a = true -> split_lines a = [a].
Proof.
  induction a as [|c a IH]; intro H; [reflexivity|].
  destruct (no_line_feed_cons _ _ H) as [Hc Ha].
  apply split_lines_continue; [exact Hc| |exact (IH Ha)].
  intros _. destruct a as [|d a]; [reflexivity|].
  rewrite <- (append_empty_r (String d a)).
  now apply startsWith_nl_no_line_feed.
Qed.

Lemma split_lines_join_crlf (lines : list string) :
  lines <> [] ->
  Forall (fun l => no_line_feed l = true) lines ->
  split_lines (join crlf lines) = lines.
Proof.
  induction lines as [|l lines IH]; intros Hne Hall; [congruence|].
  inversion Hall as [|? ? Hl Hls]; subst.
  destruct lines as [|l' lines].
  - now apply split_lines_single.
  - rewrite join_cons_nonempty by discriminate.
    rewrite split_lines_crlf_cons by exact Hl.
    now rewrite IH by (auto; discriminate).
Qed.

Lemma split_lines_join_lf (lines : list string) :
  lines <> [] ->
  Forall (fun l => no_line_feed l = true) lines ->
  Forall (fun l => endsWith l cr = false) (removelast lines) ->
  split_lines (join nl lines) = lines.
Proof.
  induction lines as [|l lines IH]; intros Hne Hall Hcr; [congruence|].
  inversion Hall as [|? ? Hl Hls]; subst.
  destruct lines as [|l' lines].
  - now apply split_lines_single.
  - change (removelast (l :: l' :: lines)) with (l :: removelast (l' :: lines)) in Hcr.
    inversion Hcr as [|? ? Hlcr Hrest]; subst.
    rewrite join_cons_nonempty by discriminate.
    rewrite split_lines_lf_cons by assumption.
    now rewrite IH by (auto; discriminate).
Qed.

End LineEndings.

(** A file is split into the lines it was written from, with Windows line
    endings as with Unix line endings (there, as long as no line but the last
    ends with a carriage return); hence the same lines compile to the same
    snippets and the same unit under both conventions. *)
Theorem line_endings_do_not_matter
  (RegExp_error : string -> string -> option js_exn) (lines : list string) :
  lines <> [] ->
  Forall (fun l => no_line_feed l = true) lines ->
  split_lines (join crlf lines) = lines /\
  (Forall (fun l => endsWith l cr = false) (removelast lines) ->
   split_lines (join nl lines) = lines /\
   compile RegExp_error (join crlf lines) = compile RegExp_error (join nl lines)).
Proof.
  intros Hne Hall. split; [now apply split_lines_join_crlf|].
  intro Hcr. split; [now apply split_lines_join_lf|].
  unfold compile.
  now rewrite split_lines_join_crlf, split_lines_join_lf.
Qed.

Lemma line_endings_do_not_matter_witness :
  split_lines ("snippet a" ++ crlf ++ "one" ++ crlf ++ "endsnippet" ++ crlf)
  = ["snippet a"; "one"; "endsnippet"; EmptyString].
Proof.
  refine (proj1 (line_endings_do_not_matter RegExp_accepts
                   ["snippet a"; "one"; "endsnippet"; EmptyString] _ _));
    [discriminate|repeat constructor].
Defined.

(** * Global blocks, inert lines and pending directives *)

Section FileLoopFacts.

Variable RegExp_error : string -> string -> option js_exn.

Lemma parse_loop_in_global (G : list string) :
  forall fuel st eg R,
    isCode st = true ->
    Forall (fun l => startsWith l "endglobal" = false) G ->
    startsWith eg "endglobal" = true ->
    parse_loop RegExp_error (List.length G + S fuel) (G ++ eg :: R) st =
    parse_loop RegExp_error fuel R
      {| snippetInfos := snippetInfos st; script := push (script st) G; isCode := false;
         pending_priority := pending_priority st; context := context st |}.
Proof.
  induction G as [|l G IH]; intros fuel st eg R Hc HG He.
  - cbn [List.length app plus parse_loop]. rewrite Hc, He.
    unfold push. now rewrite app_nil_r.
  - inversion HG as [|? ? Hl HG']; subst.
    cbn [List.length app plus parse_loop]. rewrite Hc, Hl.
    rewrite IH by auto. cbn [snippetInfos script pending_priority context].
    unfold push. now rewrite <- app_assoc.
Qed.

Lemma parse_loop_global_block (G : list string) (fuel : nat) (st : parse_state)
      (g eg : string) (R : list string) :
  isCode st = false ->
  startsWith g "#" = false -> startsWith g "global" = true ->
  Forall (fun l => startsWith l "endglobal" = false) G ->
  startsWith eg "endglobal" = true ->
  parse_loop RegExp_error (S (List.length G + S fuel)) (g :: G ++ eg :: R) st =
  parse_loop RegExp_error fuel R
    {| snippetInfos := snippetInfos st; script := push (script st) G; isCode := false;
       pending_priority := pending_priority st; context := context st |}.
Proof.
  intros Hc Hh Hg HG He. cbn [parse_loop]. rewrite Hc, Hh, Hg.
  now rewrite parse_loop_in_global.
Qed.




End FileLoopFacts.

(** The lines of a [global] block go to the preamble as they are and in
    order, also those that look like comments, directives or declarations,
    up to the first line that starts with [endglobal]; the block changes
    nothing else, so pending priority and context outlive it. *)
Theorem global_block_is_copied
  (RegExp_error : string -> string -> option js_exn)
  (G : list string) (fuel : nat) (st : parse_state) (g eg : string) (R : list string) :
  isCode st = false ->
  startsWith g "#" = false -> startsWith g "global" = true ->
  Forall (fun l => startsWith l "endglobal" = false) G ->
  startsWith eg "endglobal" = true ->
  parse_loop RegExp_error (S (List.length G + S fuel)) (g :: G ++ eg :: R) st =
  parse_loop RegExp_error fuel R
    {| snippetInfos := snippetInfos st; script := push (script st) G; isCode := false;
       pending_priority := pending_priority st; context := context st |}.
Proof. apply parse_loop_global_block. Qed.

Lemma global_block_is_copied_witness :
  parse_loop RegExp_accepts 4
    ["global"; "# a helper"; "snippet is code here"; "endglobal"] parse_init
  = Some (Normal {| snippetInfos := []; script := ["# a helper"; "snippet is code here"];
                    isCode := false; pending_priority := Num 0; context := None |}).
Proof.
  exact (global_block_is_copied RegExp_accepts ["# a helper"; "snippet is code here"] 0
           parse_init "global" "endglobal" [] eq_refl eq_refl eq_refl
           ltac:(repeat constructor) eq_refl).
Defined.



(** * A block that is never closed *)

Lemma parseSnippet_loop_script_lines (L : list string) :
  forall fuel script,
    Forall (fun l => includes l CODE_DELIMITER = false) L ->
    List.length L <= fuel ->
    parseSnippet_loop fuel L script true = Some (push script (map trim L), []).
Proof.
  induction L as [|l L IH]; intros fuel script HL Hf.
  - unfold push. cbn [map]. rewrite app_nil_r. now destruct fuel.
  - destruct fuel as [|fuel]; [cbn [List.length] in Hf; lia|].
    inversion HL as [|? ? Hl HL']; subst.
    rewrite (loop_code_plain _ _ _ _ Hl).
    rewrite IH by (auto; cbn [List.length] in Hf; lia).
    unfold push. cbn [map]. now rewrite <- app_assoc.
Qed.

(** Where a body line opens a script block that is never closed, every
    following line of the file is taken as a script line of that block:
    terminators and later declarations included, each with its surrounding
    white space removed.  Nothing is left to the caller, and the statement
    removed at the end is the last of these script lines. *)
Theorem unclosed_block_takes_the_file
  (RegExp_error : string -> string -> option js_exn)
  (headerLine line : string) (h : IHSnippetHeader) (L : list string) :
  parseSnippetHeader RegExp_error headerLine = Normal h ->
  startsWith line "endsnippet" = false ->
  includes line CODE_DELIMITER = true ->
  Forall (fun l => includes l CODE_DELIMITER = false)
         (join CODE_DELIMITER (snd (split_CODE_DELIMITER_REGEX line)) :: L) ->
  parseSnippet RegExp_error headerLine (line :: L) =
  Some (Normal
          ({| body :=
                join nl
                  (finish_script
                     (push script_prologue
                        (stmt_push_text (fst (split_CODE_DELIMITER_REGEX line))
                         :: stmt_reset_rv
                         :: map trim (join CODE_DELIMITER
                                           (snd (split_CODE_DELIMITER_REGEX line)) :: L))));
              contextFilter := None;
              header := h |}, [])).
Proof.
  intros Hh He Hi HL. unfold parseSnippet. rewrite Hh.
  pose proof (pushed_back_shorter _ Hi) as Hlen.
  pose proof (body_fuel_length L) as HfL.
  cbn [body_fuel].
  destruct (String.length line) as [|n] eqn:En; [lia|].
  cbn [plus]. rewrite (loop_text_delimiter _ _ _ _ He Hi).
  rewrite parseSnippet_loop_script_lines; [|exact HL|cbn [List.length]; lia].
  unfold push. rewrite <- app_assoc. reflexivity.
Qed.

Lemma unclosed_block_takes_the_file_witness :
  exists info,
    parseSnippet RegExp_accepts "snippet a"
                 ["total: ``rv = 1"; "  rv = 2  "; "endsnippet"; "snippet b"; "beta";
                  "endsnippet"]
    = Some (Normal (info, [])) /\
    body info =
    join nl (script_prologue ++
             [stmt_push_text "total: "; stmt_reset_rv; "rv = 1"; "rv = 2"; "endsnippet";
              "snippet b"; "beta"; stmt_return; stmt_close]).
Proof.
  eexists. split.
  - refine (unclosed_block_takes_the_file RegExp_accepts "snippet a" "total: ``rv = 1"
              {| trigger := TriggerString "a"; description := EmptyString;
                 flags := EmptyString; priority := None |}
              ["  rv = 2  "; "endsnippet"; "snippet b"; "beta"; "endsnippet"]
              eq_refl eq_refl eq_refl _).
    repeat constructor.
  - reflexivity.
Defined.

(** * What every compiled file satisfies *)

Section CompileInvariants.

Variable RegExp_error : string -> string -> option js_exn.







End CompileInvariants.


(** * Escaping *)

(** Escaping is undone by reading the literal: for a line without a raw line
    terminator, the statement emitted for it is itself one line, and read by
    the rules of a double-quoted literal it is a push of exactly that line;
    backslashes and double quotes of the line come back as they were, and the
    literal ends at the quote the statement closes it with, not before. *)
Theorem escaped_line_reads_back (s after : string) :
  no_line_terminator s = true ->
  Reference.string_literal (escapeString s ++ dq ++ after) = Some (s, after) /\
  Reference.classify (stmt_push_text s) = Some (Reference.SPushText s) /\
  no_line_terminator (stmt_push_text s) = true.
Proof.
  intro H. split; [exact (string_literal_escapeString s after H)|].
  split; [exact (proj2 (classify_push_text s H))|].
  exact (stmt_push_text_no_line_terminator s H).
Qed.

Lemma escaped_line_reads_back_witness :
  Reference.string_literal
    (escapeString ("C:" ++ bs ++ "dir " ++ dq ++ "x" ++ dq ++ bs) ++ dq ++ ");")
  = Some ("C:" ++ bs ++ "dir " ++ dq ++ "x" ++ dq ++ bs, ");").
Proof.
  exact (proj1 (escaped_line_reads_back ("C:" ++ bs ++ "dir " ++ dq ++ "x" ++ dq ++ bs) ");" eq_refl)).
Defined.

(** * C7: priority and context directives *)

Section Directives.

Variable RegExp_error : string -> string -> option js_exn.







End Directives.



(** * C10: missing terminators *)

Lemma zipped_headers (JsValue : Type) (infos : list IHSnippetInfo) :
  forall generators : list (IHSnippetParseResult JsValue),
    List.length infos <= List.length generators ->
    map snippet_header (map (make_snippet JsValue) (combine infos generators)) =
    map header infos.
Proof.
  induction infos as [|s infos IH]; intros [|g generators] H;
    cbn [List.length] in H; try lia; [reflexivity|reflexivity|].
  cbn [combine map make_snippet snippet_header fst]. rewrite IH by lia. reflexivity.
Qed.

(** C10, as the code has it.  A snippet body that no [endsnippet] closes (no
    line starts with it, nor has it right after a delimiter) takes every
    remaining line of the file and the declaration is recorded as usual; a
    [global] block that no [endglobal] closes takes every remaining line into
    the preamble; in both cases the loop ends normally.  The scan of a file
    always ends: the two loops never run out of fuel.  What the scan has
    compiled is then executed as for any other file: [parse] returns its
    snippets, one for each declaration and with its header, whenever the
    execution of the unit returns at least as many generators, and it throws
    its [Error] whenever the execution of the unit throws. *)
Theorem missing_terminators_tolerated
  (RegExp_error : string -> string -> option js_exn) :
  (forall fuel st headerLine lines h,
     isCode st = false ->
     startsWith headerLine "snippet" = true ->
     parseSnippetHeader RegExp_error headerLine = Normal h ->
     Forall (fun l => unterminated_line l = true) lines ->
     exists emitted,
       parseSnippet_loop (body_fuel lines) lines script_prologue false = Some (emitted, []) /\
       parse_loop RegExp_error (S fuel) (headerLine :: lines) st =
       Some (Normal
               {| snippetInfos :=
                    (snippetInfos st ++
                     [{| body := join nl (finish_script emitted);
                         contextFilter := context st;
                         header := set_header_priority h (pending_priority st) |}])%list;
                  script := script st; isCode := false;
                  pending_priority := Num 0; context := None |})) /\
  (forall lines st,
     isCode st = true ->
     Forall (fun l => startsWith l "endglobal" = false) lines ->
     parse_loop RegExp_error (List.length lines) lines st =
     Some (Normal {| snippetInfos := snippetInfos st;
                     script := push (script st) lines;
                     isCode := true;
                     pending_priority := pending_priority st;
                     context := context st |})) /\
  (forall content, exists r, compile RegExp_error content = Some r) /\
  (forall (JsValue : Type) (require : string -> completion JsValue)
          (new_Function :
             string -> completion ((string -> M (option JsValue)) ->
                                   M (list (IHSnippetParseResult JsValue))))
          content snippets wrappedScript executionFunction generators out out',
     compile RegExp_error content = Some (Normal (snippets, wrappedScript)) ->
     new_Function wrappedScript = Normal executionFunction ->
     executionFunction (safeRequire JsValue require) out = (Normal generators, out') ->
     List.length snippets <= List.length generators ->
     exists m result,
       parse JsValue RegExp_error require new_Function content = Some m /\
       m out = (Normal result, out') /\
       map snippet_header result = map header snippets) /\
  (forall (JsValue : Type) (require : string -> completion JsValue)
          (new_Function :
             string -> completion ((string -> M (option JsValue)) ->
                                   M (list (IHSnippetParseResult JsValue))))
          content snippets wrappedScript e out out',
     compile RegExp_error content = Some (Normal (snippets, wrappedScript)) ->
     execution JsValue require new_Function wrappedScript out = (Throw e, out') ->
     exists m,
       parse JsValue RegExp_error require new_Function content = Some m /\
       m out =
       (Throw (ErrorObject "Error"
                 ("Failed to parse snippet code: " ++ enrich (error_text e))),
        (out' ++ [console_error "[HSnips] Error executing snippet code:" e])%list)).
Proof.
  split; [|split; [|split; [|split]]].
  - intros fuel st headerLine lines h Hc Hk Hh Hall.
    destruct (parseSnippet_total RegExp_error headerLine lines)
      as [(e & He & _)|(h' & emitted & lines' & Hh' & Hloop & Hp & _)]; [congruence|].
    assert (h' = h) by congruence. subst h'.
    pose proof (parseSnippet_loop_unterminated _ _ _ _ _ _ Hall Hloop). subst lines'.
    exists emitted. split; [exact Hloop|].
    rewrite (parse_loop_declaration _ _ _ _ _ Hc Hk), Hp. now destruct fuel.
  - intros lines st Hc Hall. now apply parse_loop_unterminated_global.
  - apply compile_total.
  - intros JsValue require new_Function content snippets wrappedScript
           executionFunction generators out out' Hc Hf Hcall Hlen.
    destruct (build_snippets_from JsValue snippets 0 generators) as [Hok _].
    cbn [skipn] in Hok. specialize (Hok Hlen).
    unfold parse. rewrite Hc. eexists. eexists. split; [reflexivity|].
    unfold bind, execute, try_catch, execution. rewrite Hf, Hcall, Hok.
    split; [reflexivity|]. now apply zipped_headers.
  - intros JsValue require new_Function content snippets wrappedScript e out out' Hc He.
    unfold parse. rewrite Hc. eexists. split; [reflexivity|].
    unfold bind, execute, try_catch. rewrite He. reflexivity.
Qed.

Lemma missing_terminators_tolerated_witness :
  (exists emitted,
     parse_loop RegExp_accepts 1 ["snippet foo"; "first line"; "second ``rv = 1"] parse_init =
     Some (Normal
             {| snippetInfos :=
                  [{| body := join nl (finish_script emitted);
                      contextFilter := None;
                      header := {| trigger := TriggerString "foo";
                                   description := EmptyString;
                                   flags := EmptyString;
                                   priority := Some (Num 0) |} |}];
                script := []; isCode := false;
                pending_priority := Num 0; context := None |})) /\
  parse_loop RegExp_accepts 2 ["let x = 1;"; "snippet foo"]
    {| snippetInfos := []; script := []; isCode := true;
       pending_priority := Num 0; context := None |} =
  Some (Normal {| snippetInfos := []; script := ["let x = 1;"; "snippet foo"];
                  isCode := true; pending_priority := Num 0; context := None |}) /\
  exists m result,
    parse unit RegExp_accepts no_module (Reference.reference_engine unit)
          ("snippet foo" ++ nl ++ "first line" ++ nl ++ "second line") = Some m /\
    m [] = (Normal result, []) /\
    map snippet_header result =
    [{| trigger := TriggerString "foo"; description := EmptyString;
        flags := EmptyString; priority := Some (Num 0) |}].
Proof.
  destruct (missing_terminators_tolerated RegExp_accepts)
    as (Hsnippet & Hglobal & _ & Hparse & _).
  split; [|split].
  - destruct (Hsnippet 0 parse_init "snippet foo" ["first line"; "second ``rv = 1"]
                {| trigger := TriggerString "foo"; description := EmptyString;
                   flags := EmptyString; priority := None |}
                eq_refl eq_refl eq_refl)
      as (emitted & _ & E).
    + repeat constructor.
    + exists emitted. exact E.
  - apply (Hglobal ["let x = 1;"; "snippet foo"]); [reflexivity|repeat constructor].
  - destruct (Hparse unit no_module (Reference.reference_engine unit)
                ("snippet foo" ++ nl ++ "first line" ++ nl ++ "second line")
                [{| body := plain_body_source ["first line"; "second line"];
                    contextFilter := None;
                    header := {| trigger := TriggerString "foo";
                                 description := EmptyString; flags := EmptyString;
                                 priority := Some (Num 0) |} |}]
                (join nl ["return ["; "{";
                          "generatorFunction: "
                            ++ plain_body_source ["first line"; "second line"];
                          "},"; "]"])
                (fun _ =>
                   ret (map (Reference.as_result unit)
                            [{| Reference.declares_blockResults := true;
                                Reference.statements :=
                                  [Reference.SPushText "first line";
                                   Reference.SPushText nl;
                                   Reference.SPushText "second line"] |}]))
                (map (Reference.as_result unit)
                     [{| Reference.declares_blockResults := true;
                         Reference.statements :=
                           [Reference.SPushText "first line";
                            Reference.SPushText nl;
                            Reference.SPushText "second line"] |}])
                [] [])
      as (m & result & Hm & Hr & Hh).
    + vm_compute. reflexivity.
    + vm_compute. reflexivity.
    + reflexivity.
    + simpl. lia.
    + exists m, result. split; [exact Hm|]. split; [exact Hr|exact Hh].
Defined.

(** C10, as the claim states it, fails: parsing does not complete normally
    for every file with an unclosed [global] block.  The block takes the lines
    that follow it, a declaration among them, into the preamble, which is
    script for the engine; the engine rejects it, and [parse] throws. *)
Lemma unclosed_global_block_fails_to_parse :
  compile RegExp_accepts unclosed_global_file =
  Some (Normal ([], join nl ["snippet foo"; "bar"; "endsnippet"; "return ["; "]"])) /\
  exists m,
    parse unit RegExp_accepts no_module early_error_engine unclosed_global_file = Some m /\
    m [] =
    (Throw (ErrorObject "Error"
              "Failed to parse snippet code: Unexpected identifier 'foo'"),
     [console_error "[HSnips] Error executing snippet code:"
                    (ErrorObject "SyntaxError" "Unexpected identifier 'foo'")]).
Proof.
  split; [vm_compute; reflexivity|].
  eexists. split; [reflexivity|]. vm_compute. reflexivity.
Qed.

(** * Files made of whole constructs *)

Section Constructs.

Variable RegExp_error : string -> string -> option js_exn.







End Constructs.



(** * Bodies whose script blocks close on their line *)

Section ClosedBlocks.

Lemma backtick_free_includes (s : string) :
  backtick_free s = true -> includes s CODE_DELIMITER = false.
Proof.
  induction s as [|c s IH]; [reflexivity|].
  unfold backtick_free. cbn [all_chars]. intro H.
  apply andb_prop in H as [Hc Hs]. apply negb_true_iff in Hc.
  unfold is_backtick in Hc. rewrite Ascii.eqb_sym in Hc.
  cbn [includes startsWith CODE_DELIMITER]. rewrite Hc. cbn [andb].
  now apply IH.
Qed.

Lemma backtick_free_first (s r : string) :
  backtick_free s = true -> s <> EmptyString -> startsWith (s ++ r) "`" = false.
Proof.
  destruct s as [|c s]; [contradiction|].
  unfold backtick_free. cbn [all_chars]. intros H _.
  apply andb_prop in H as [Hc _]. apply negb_true_iff in Hc.
  unfold is_backtick in Hc. rewrite Ascii.eqb_sym in Hc.
  change (String c s ++ r) with (String c (s ++ r)).
  cbn [startsWith]. now rewrite Hc.
Qed.

Lemma split_at_prefix (a b : string) :
  backtick_free a = true ->
  startsWith b "`" = false ->
  fst (split_CODE_DELIMITER_REGEX (a ++ CODE_DELIMITER ++ b)) = a /\
  join CODE_DELIMITER (snd (split_CODE_DELIMITER_REGEX (a ++ CODE_DELIMITER ++ b))) = b.
Proof.
  intros Ha Hb. induction a as [|c a IH].
  - change (EmptyString ++ CODE_DELIMITER ++ b) with (CODE_DELIMITER ++ b).
    rewrite (split_cons_match _ Hb). cbn [fst snd]. split; [reflexivity|].
    apply split_join.
  - unfold backtick_free in Ha. cbn [all_chars] in Ha.
    apply andb_prop in Ha as [Hc Ha]. apply negb_true_iff in Hc.
    unfold is_backtick in Hc. rewrite Ascii.eqb_sym in Hc.
    change (String c a ++ CODE_DELIMITER ++ b) with (String c (a ++ CODE_DELIMITER ++ b)).
    assert (E : CODE_DELIMITER_REGEX_at (String c (a ++ CODE_DELIMITER ++ b)) = false).
    { unfold CODE_DELIMITER_REGEX_at. cbn [startsWith CODE_DELIMITER]. now rewrite Hc. }
    rewrite (split_cons_skip _ _ E). cbn [fst snd].
    destruct (IH Ha) as [-> ->]. split; reflexivity.
Qed.

Lemma startsWith_cut (p : string) :
  forall t m,
    backtick_free p = true ->
    startsWith t p = false ->
    startsWith m "`" = true ->
    startsWith (t ++ m) p = false.
Proof.
  induction p as [|a p IH]; intros t m Hp Ht Hm; [discriminate Ht|].
  unfold backtick_free in Hp. cbn [all_chars] in Hp.
  apply andb_prop in Hp as [Ha Hp]. apply negb_true_iff in Ha. unfold is_backtick in Ha.
  destruct t as [|b t].
  - change (EmptyString ++ m) with m.
    destruct (startsWith_inv _ _ Hm) as [m' ->].
    cbn [append startsWith]. now rewrite Ha.
  - change (String b t ++ m) with (String b (t ++ m)).
    cbn [startsWith] in *. destruct (Ascii.eqb a b); [|reflexivity].
    cbn [andb] in *. now apply IH.
Qed.

Lemma well_formed_line_text (text : string) (blocks : list (string * string)) :
  well_formed_line text blocks = true ->
  backtick_free text = true /\ no_line_terminator text = true /\
  startsWith text "endsnippet" = false.
Proof.
  intro H. destruct blocks as [|[c t] r]; cbn [well_formed_line] in H;
    apply andb_prop in H as [H _]; unfold text_piece in H;
    apply andb_prop in H as [H He]; apply andb_prop in H as [Hb Hn];
    apply negb_true_iff in He; auto.
Qed.

Lemma well_formed_line_block (text code after : string) (blocks : list (string * string)) :
  well_formed_line text ((code, after) :: blocks) = true ->
  backtick_free code = true /\ no_line_terminator code = true /\
  code <> EmptyString /\ (exists v, block_value code = Some v) /\
  (after <> EmptyString \/ blocks = []) /\
  well_formed_line after blocks = true.
Proof.
  cbn [well_formed_line]. intro H.
  apply andb_prop in H as [_ H]. apply andb_prop in H as [H Hw].
  apply andb_prop in H as [Hc Ha]. unfold code_piece in Hc.
  apply andb_prop in Hc as [Hc Hv]. apply andb_prop in Hc as [Hc Hne].
  apply andb_prop in Hc as [Hb Hn].
  repeat split; auto.
  - intros ->. discriminate Hne.
  - destruct (block_value code) as [v|]; [now exists v|discriminate].
  - apply orb_prop in Ha as [Ha|Ha].
    + left. intros ->. discriminate Ha.
    + right. now destruct blocks.
Qed.

Lemma block_line_first (text : string) (blocks : list (string * string)) :
  well_formed_line text blocks = true ->
  text <> EmptyString \/ blocks = [] ->
  startsWith (block_line text blocks) "`" = false.
Proof.
  intros Hw [Hne| ->].
  - destruct (well_formed_line_text _ _ Hw) as (Hb & _).
    destruct blocks as [|[c t] r]; cbn [block_line].
    + rewrite <- (append_empty_r text). now apply backtick_free_first.
    + now apply backtick_free_first.
  - cbn [block_line]. destruct (well_formed_line_text _ _ Hw) as (Hb & _).
    destruct text as [|c text]; [reflexivity|].
    rewrite <- (append_empty_r (String c text)). now apply backtick_free_first.
Qed.

Lemma loop_block_line (blocks : list (string * string)) :
  forall text fuel L script,
    well_formed_line text blocks = true ->
    parseSnippet_loop (2 * List.length blocks + S fuel) (block_line text blocks :: L)
                      script false =
    parseSnippet_loop fuel L (push script (line_front text blocks ++ [stmt_push_newline]))
                      false.
Proof.
  induction blocks as [|[code after] blocks IH]; intros text fuel L script Hw.
  - destruct (well_formed_line_text _ _ Hw) as (Hb & _ & He).
    cbn [List.length Nat.mul plus block_line line_front app].
    apply loop_text_plain. unfold plain_text.
    now rewrite (backtick_free_includes _ Hb), He.
  - destruct (well_formed_line_text _ _ Hw) as (Hb & _ & He).
    destruct (well_formed_line_block _ _ _ _ Hw) as (Hcb & _ & Hcne & _ & Hafter & Hw').
    replace (2 * List.length ((code, after) :: blocks) + S fuel)
      with (S (S (2 * List.length blocks + S fuel))) by (cbn [List.length]; lia).
    cbn [block_line].
    set (tail := block_line after blocks).
    assert (Hcode : startsWith (code ++ CODE_DELIMITER ++ tail) "`" = false)
      by now apply backtick_free_first.
    assert (Htail : startsWith tail "`" = false) by now apply block_line_first.
    destruct (split_at_prefix text (code ++ CODE_DELIMITER ++ tail) Hb Hcode) as [T1 T2].
    destruct (split_at_prefix code tail Hcb Htail) as [C1 C2].
    rewrite loop_text_delimiter.
    + rewrite T1, T2. rewrite loop_code_delimiter.
      * rewrite C1, C2. unfold tail. rewrite IH by exact Hw'.
        unfold push. cbn [line_front]. rewrite <- !app_assoc. reflexivity.
      * apply includes_append_r. apply startsWith_includes. apply startsWith_append.
    + apply startsWith_cut; [reflexivity|exact He|reflexivity].
    + apply includes_append_r. apply startsWith_includes. apply startsWith_append.
Qed.

Lemma loop_block_body (pieces : block_body) :
  forall fuel L script,
    Forall (fun l => well_formed_line (fst l) (snd l) = true) pieces ->
    parseSnippet_loop (block_body_fuel pieces fuel) (block_body_lines pieces ++ L)
                      script false =
    parseSnippet_loop fuel L (push script (block_body_statements pieces)) false.
Proof.
  induction pieces as [|[text blocks] pieces IH]; intros fuel L script Hall.
  - unfold push. cbn. now rewrite app_nil_r.
  - inversion Hall as [|? ? Hw Hrest]; subst. cbn [fst snd] in Hw.
    cbn [block_body_fuel block_body_lines map app fst snd].
    rewrite (loop_block_line blocks text _ _ _ Hw).
    fold (block_body_lines pieces). rewrite IH by exact Hrest.
    unfold push, block_body_statements. cbn [flat_map fst snd].
    now rewrite <- !app_assoc.
Qed.

Variable RegExp_error : string -> string -> option js_exn.

Lemma parseSnippet_block_body (headerLine terminator : string) (h : IHSnippetHeader)
      (pieces : block_body) (R : list string) :
  parseSnippetHeader RegExp_error headerLine = Normal h ->
  Forall (fun l => well_formed_line (fst l) (snd l) = true) pieces ->
  startsWith terminator "endsnippet" = true ->
  parseSnippet RegExp_error headerLine (block_body_lines pieces ++ terminator :: R) =
  Some (Normal
          ({| body := join nl (finish_script
                                 (push script_prologue (block_body_statements pieces)));
              contextFilter := None;
              header := h |}, R)).
Proof.
  intros Hh Hall Ht. unfold parseSnippet. rewrite Hh.
  set (lines := (block_body_lines pieces ++ terminator :: R)%list).
  assert (E : parseSnippet_loop (block_body_fuel pieces 1) lines script_prologue false =
              Some (push script_prologue (block_body_statements pieces), R)).
  { unfold lines. rewrite (loop_block_body pieces 1 _ _ Hall).
    now apply loop_endsnippet. }
  destruct (parseSnippet_loop_total (body_fuel lines) lines script_prologue false (le_n _))
    as (script' & lines' & E' & _).
  rewrite E'.
  pose proof (parseSnippet_loop_fuel_irrelevant _ _ _ _ _ E
                (max (block_body_fuel pieces 1) (body_fuel lines)) (Nat.le_max_l _ _)) as F.
  pose proof (parseSnippet_loop_fuel_irrelevant _ _ _ _ _ E'
                (max (block_body_fuel pieces 1) (body_fuel lines)) (Nat.le_max_r _ _)) as F'.
  rewrite F in F'. injection F' as <- <-. reflexivity.
Qed.

Lemma reads_as_code (code : string) :
  no_line_terminator code = true ->
  (exists v, block_value code = Some v) ->
  reads_as (trim code) (code_stmt code).
Proof.
  intros Hn [v Hv]. unfold block_value in Hv. unfold code_stmt.
  destruct (Reference.classify (trim code)) as [s|] eqn:C; [|discriminate Hv].
  split; [|split; [|exact C]].
  - destruct (trim_inside code) as (before & after & E).
    unfold no_line_terminator in *. rewrite E in Hn.
    now apply inside_all_chars in Hn.
  - destruct (String.eqb_spec (trim code) stmt_return) as [E|]; [|reflexivity].
    rewrite E in C. vm_compute in C. discriminate C.
Qed.

Lemma reads_line_front (blocks : list (string * string)) :
  forall text,
    well_formed_line text blocks = true ->
    Forall2 reads_as (line_front text blocks) (line_front_stmts text blocks).
Proof.
  induction blocks as [|[code after] blocks IH]; intros text Hw;
    destruct (well_formed_line_text _ _ Hw) as (_ & Hn & _);
    cbn [line_front line_front_stmts].
  - constructor; [|constructor].
    split; [now apply stmt_push_text_no_line_terminator|now apply classify_push_text].
  - destruct (well_formed_line_block _ _ _ _ Hw) as (_ & Hcn & _ & Hv & _ & Hw').
    constructor.
    { split; [now apply stmt_push_text_no_line_terminator|now apply classify_push_text]. }
    constructor; [repeat split|].
    constructor; [now apply reads_as_code|].
    constructor; [repeat split|].
    constructor; [repeat split|].
    now apply IH.
Qed.

Lemma reads_block_body (pieces : block_body) :
  Forall (fun l => well_formed_line (fst l) (snd l) = true) pieces ->
  Forall2 reads_as (block_body_statements pieces) (block_body_stmts pieces).
Proof.
  induction 1 as [|[text blocks] pieces Hw _ IH]; [constructor|].
  unfold block_body_statements, block_body_stmts. cbn [flat_map fst snd].
  apply Forall2_app; [|exact IH].
  apply Forall2_app; [now apply reads_line_front|].
  constructor; [repeat split|constructor].
Qed.

Lemma Forall2_removelast (A B : Type) (P : A -> B -> Prop) (l : list A) (l' : list B) :
  Forall2 P l l' -> Forall2 P (removelast l) (removelast l').
Proof.
  induction 1 as [|a b l l' Hab H IH]; [constructor|].
  destruct H as [|a' b' l l' Hab' H]; [constructor|].
  cbn [removelast] in *. constructor; [exact Hab|exact IH].
Qed.

Lemma code_stmt_cases (code v : string) :
  block_value code = Some v ->
  (exists w, code_stmt code = Reference.SAssignRv w /\ v = Reference.String_of w) \/
  (code_stmt code = Reference.SNop /\ v = EmptyString).
Proof.
  unfold block_value, code_stmt.
  destruct (Reference.classify (trim code)) as [[| | |w|]|]; try discriminate;
    intro H; injection H as <-.
  - left. now exists w.
  - now right.
Qed.

Lemma run_line_front (blocks : list (string * string)) :
  forall text n rest sc results,
    well_formed_line text blocks = true ->
    Reference._blockResults sc = Some results ->
    List.length results = n ->
    exists rv',
      Reference.run (line_front_stmts text blocks ++ rest) sc =
      Reference.run rest
        {| Reference.rv := rv';
           Reference._result := (Reference._result sc ++ front_segments n text blocks)%list;
           Reference._blockResults := Some (results ++ line_values blocks)%list |}.
Proof.
  induction blocks as [|[code after] blocks IH]; intros text n rest sc results Hw Hb Hn.
  - exists (Reference.rv sc).
    cbn [line_front_stmts app Reference.run Reference.exec front_segments line_values map].
    now rewrite app_nil_r, Hb.
  - destruct (well_formed_line_block _ _ _ _ Hw) as (_ & _ & _ & [v Hv] & _ & Hw').
    cbn [line_front_stmts app front_segments line_values map fst]. rewrite Hv.
    destruct (code_stmt_cases _ _ Hv) as [(w & Hs & ->)|[Hs ->]]; rewrite Hs;
      cbn [Reference.run Reference.exec Reference.rv Reference._result
           Reference._blockResults];
      rewrite Hb;
      cbn [Reference.run Reference.exec Reference.rv Reference._result
           Reference._blockResults Reference.String_of];
      rewrite Hn;
      (edestruct (IH after (S n) rest) as [rv' E];
       [exact Hw'| | |rewrite E; exists rv']);
      try (cbn [Reference._blockResults]; reflexivity);
      try (rewrite length_app; cbn [List.length]; lia);
      cbn [Reference.rv Reference._result Reference._blockResults];
      now rewrite <- !app_assoc.
Qed.

Lemma run_block_body (pieces : block_body) :
  forall n rest sc results,
    Forall (fun l => well_formed_line (fst l) (snd l) = true) pieces ->
    Reference._blockResults sc = Some results ->
    List.length results = n ->
    exists rv',
      Reference.run (block_body_stmts pieces ++ rest) sc =
      Reference.run rest
        {| Reference.rv := rv';
           Reference._result := (Reference._result sc ++ body_segments n pieces)%list;
           Reference._blockResults := Some (results ++ body_values pieces)%list |}.
Proof.
  induction pieces as [|[text blocks] pieces IH]; intros n rest sc results Hall Hb Hn.
  - exists (Reference.rv sc). cbn. rewrite !app_nil_r, <- Hb. now destruct sc.
  - inversion Hall as [|? ? Hw Hrest]; subst. cbn [fst snd] in Hw.
    unfold block_body_stmts, body_values. cbn [flat_map fst snd body_segments].
    fold (block_body_stmts pieces). fold (body_values pieces).
    rewrite <- !app_assoc.
    destruct (run_line_front blocks text (List.length results)
                ([Reference.SPushText nl] ++ block_body_stmts pieces ++ rest)%list
                sc results Hw Hb eq_refl) as [rv0 ->].
    cbn [app Reference.run Reference.exec Reference.rv Reference._result
         Reference._blockResults].
    edestruct (IH (List.length results + List.length blocks) rest) as [rv' E];
      [exact Hrest| | |rewrite E; exists rv'].
    + cbn [Reference._blockResults]. reflexivity.
    + rewrite length_app. unfold line_values. now rewrite length_map.
    + cbn [Reference.rv Reference._result Reference._blockResults].
      now rewrite <- !app_assoc.
Qed.

Lemma body_values_length (pieces : block_body) (text : string)
      (blocks : list (string * string)) :
  List.length (body_values (pieces ++ [(text, blocks)])%list) =
  List.length (body_values pieces) + List.length blocks.
Proof.
  unfold body_values. rewrite flat_map_app, length_app. cbn [flat_map snd].
  rewrite app_nil_r. unfold line_values. now rewrite length_map.
Qed.

Lemma body_segments_nonempty (pieces : block_body) (n : nat) :
  pieces <> [] -> body_segments n pieces <> [].
Proof.
  destruct pieces as [|[t [|[c a] b]] pieces]; [contradiction| |]; intros _; discriminate.
Qed.

Lemma body_segments_snoc (pieces : block_body) (text : string)
      (blocks : list (string * string)) :
  forall n,
    removelast (body_segments n (pieces ++ [(text, blocks)])%list) =
    (body_segments n pieces
     ++ front_segments (n + List.length (body_values pieces)) text blocks)%list.
Proof.
  induction pieces as [|[t b] pieces IH]; intro n.
  - cbn [app body_segments body_values flat_map List.length]. rewrite Nat.add_0_r.
    apply removelast_last.
  - change (body_segments n (((t, b) :: pieces) ++ [(text, blocks)])%list)
      with (front_segments n t b ++ [Text nl]
            ++ body_segments (n + List.length b) (pieces ++ [(text, blocks)]))%list.
    assert (Hne : body_segments (n + List.length b) (pieces ++ [(text, blocks)])%list <> [])
      by (apply body_segments_nonempty; destruct pieces; discriminate).
    rewrite removelast_app by discriminate.
    rewrite removelast_app by exact Hne.
    rewrite IH. cbn [body_segments]. rewrite <- !app_assoc.
    replace (n + List.length (body_values ((t, b) :: pieces)))
      with (n + List.length b + List.length (body_values pieces)); [reflexivity|].
    unfold body_values. cbn [flat_map snd]. rewrite length_app.
    unfold line_values at 2. rewrite length_map. lia.
Qed.

Lemma block_references_front (blocks : list (string * string)) :
  forall n text,
    block_references (front_segments n text blocks) = seq n (List.length blocks).
Proof.
  induction blocks as [|[c t] blocks IH]; intros n text; [reflexivity|].
  cbn [front_segments block_references List.length seq]. now rewrite IH.
Qed.

Lemma block_references_body (pieces : block_body) :
  forall n,
    block_references (body_segments n pieces) = seq n (List.length (body_values pieces)).
Proof.
  induction pieces as [|[text blocks] pieces IH]; intro n; [reflexivity|].
  cbn [body_segments]. rewrite !block_references_app, block_references_front, IH.
  cbn [block_references app]. unfold body_values. cbn [flat_map snd].
  rewrite length_app.
  replace (List.length (line_values blocks)) with (List.length blocks)
    by (unfold line_values; now rewrite length_map).
  now rewrite seq_app.
Qed.

End ClosedBlocks.

(** The round trip of bodies with closed blocks.  A body of one or more
    lines, each a text followed by script blocks that open and close on the
    line, where texts and codes hold no backtick and no raw line terminator,
    no text starts with the terminator, two blocks are separated by some
    text, and the code of a block is a constant or assigns a constant to [rv],
    compiles to a generator that the reference semantics evaluates and that
    returns: the texts and the line feeds between
    the lines as text segments, each block as a reference, numbered 0, 1, ...
    in order of appearance, and one block result per block, the value its
    code leaves in [rv] (the empty text when it assigns nothing).  No line
    feed follows the last line. *)
Theorem closed_blocks_round_trip
  (RegExp_error : string -> string -> option js_exn)
  (headerLine terminator : string) (h : IHSnippetHeader)
  (pieces : block_body) (R : list string) :
  parseSnippetHeader RegExp_error headerLine = Normal h ->
  pieces <> [] ->
  Forall (fun l => well_formed_line (fst l) (snd l) = true) pieces ->
  startsWith terminator "endsnippet" = true ->
  exists info f,
    parseSnippet RegExp_error headerLine (block_body_lines pieces ++ terminator :: R)
    = Some (Normal (info, R)) /\
    Reference.eval_generator (body info) = Some f /\
    Reference.call f =
    Normal (removelast (body_segments 0 pieces), body_values pieces) /\
    block_references (removelast (body_segments 0 pieces))
    = seq 0 (List.length (body_values pieces)).
Proof.
  intros Hh Hne Hall Ht.
  exists {| body := join nl (finish_script
                               (push script_prologue (block_body_statements pieces)));
            contextFilter := None; header := h |},
         {| Reference.declares_blockResults := true;
            Reference.statements := removelast (block_body_stmts pieces) |}.
  split; [exact (parseSnippet_block_body _ _ _ _ _ _ Hh Hall Ht)|].
  cbn [body].
  pose proof (Forall2_removelast _ _ _ _ _ (reads_block_body pieces Hall)) as Hread.
  destruct (exists_last Hne) as (pieces' & [text blocks] & ->).
  apply Forall_app in Hall as [Hall' Hlast].
  inversion Hlast as [|? ? Hw _]; subst. cbn [fst snd] in Hw.
  assert (Hs : exists front, block_body_statements (pieces' ++ [(text, blocks)])%list
                             = (front ++ [stmt_push_newline])%list).
  { unfold block_body_statements. rewrite flat_map_app. cbn [flat_map fst snd].
    rewrite app_nil_r, app_assoc. eexists. reflexivity. }
  destruct Hs as [front Hs].
  assert (Hf : finish_script (push script_prologue
                                   (block_body_statements (pieces' ++ [(text, blocks)])%list))
               = (script_prologue
                  ++ removelast (block_body_statements (pieces' ++ [(text, blocks)])%list)
                  ++ [stmt_return; stmt_close])%list).
  { unfold finish_script, push, pop. rewrite Hs.
    rewrite (app_assoc script_prologue front), !removelast_last.
    now rewrite <- !app_assoc. }
  rewrite Hf, (eval_generator_statements _ _ Hread).
  split; [reflexivity|].
  rewrite body_segments_snoc. cbn [plus].
  split.
  - unfold Reference.call. cbn [Reference.statements Reference.declares_blockResults].
    assert (Hstmts : removelast (block_body_stmts (pieces' ++ [(text, blocks)])%list)
                     = (block_body_stmts pieces' ++ line_front_stmts text blocks ++ [])%list).
    { unfold block_body_stmts. rewrite flat_map_app. cbn [flat_map fst snd].
      rewrite !app_nil_r, !app_assoc. apply removelast_last. }
    rewrite Hstmts.
    edestruct (run_block_body pieces' 0) as [rv1 ->]; [exact Hall'|reflexivity|reflexivity|].
    cbn [Reference._result Reference._blockResults app].
    edestruct (run_line_front blocks text (List.length (body_values pieces')) [])
      as [rv2 ->]; [exact Hw|reflexivity|reflexivity|].
    cbn [Reference.run Reference._result Reference._blockResults].
    unfold body_values. rewrite flat_map_app. cbn [flat_map snd].
    now rewrite app_nil_r.
  - rewrite block_references_app, block_references_body, block_references_front.
    rewrite body_values_length. cbn [plus]. now rewrite <- seq_app.
Qed.

Lemma closed_blocks_round_trip_witness :
  exists info f,
    parseSnippet RegExp_accepts "snippet t"
                 ["total ``rv = 1+2`` items, ``7`` left"; "done"; "endsnippet";
                  "snippet next"]
    = Some (Normal (info, ["snippet next"])) /\
    Reference.eval_generator (body info) = Some f /\
    Reference.call f =
    Normal ([Text "total "; Block 0; Text " items, "; Block 1; Text " left"; Text nl;
             Text "done"],
            ["3"; EmptyString]).
Proof.
  destruct (closed_blocks_round_trip RegExp_accepts "snippet t" "endsnippet"
              {| trigger := TriggerString "t"; description := EmptyString;
                 flags := EmptyString; priority := None |}
              [("total ", [("rv = 1+2", " items, "); ("7", " left")]); ("done", [])]
              ["snippet next"] eq_refl)
    as (info & f & Hp & He & Hc & _);
    [discriminate | repeat constructor | reflexivity |].
  exists info, f. split; [exact Hp|]. split; [exact He|exact Hc].
Defined.
